(** * combine.py: the [combine_devel] filter, its merger and its flattener

    A shallow embedding of [roles/agnosticv/filter_plugins/combine.py].

    Python dictionaries and lists are mutable objects that are passed by
    reference, and [merge_hash] promises not to modify its arguments.  The
    embedding therefore keeps an explicit object store: a value is a scalar
    or a reference, and every function that allocates or assigns threads the
    store.  Recursion through the store is bounded by a fuel argument, which
    plays the part of the interpreter's recursion limit. *)

From stdpp Require Import base numbers list strings pretty.

Set Warnings "-register-all".

Open Scope string_scope.
Open Scope list_scope.

(** ** Values, objects and the store *)

Abbreviation addr := nat (only parsing).

(** Scalars are immediate, containers live in the store.  The universe is
    the one of loaded YAML/JSON documents: [None], booleans, integers,
    strings, lists and dictionaries with string keys. *)
Inductive val :=
  | VNone
  | VBool (b : bool)
  | VInt (n : Z)
  | VStr (s : string)
  | VRef (a : addr).

(** A dictionary keeps its items in insertion order; its keys are unique. *)
Inductive obj :=
  | ODict (items : list (string * val))
  | OList (elems : list val).

Abbreviation heap := (list obj) (only parsing).

Inductive exn :=
  | AnsibleError (msg : string)
  | AnsibleFilterError (msg : string)
  | RecursionError
  | TypeError
  | StopIteration.

Inductive outcome (A : Type) :=
  | Return (a : A)
  | Raise (e : exn).
Arguments Return {A} a.
Arguments Raise {A} e.

(** ** Snapshots

    The value a reference stands for, read off the store: what a deep copy
    or a deep comparison sees. *)
Inductive data :=
  | DNone
  | DBool (b : bool)
  | DInt (n : Z)
  | DStr (s : string)
  | DList (l : list data)
  | DDict (d : list (string * data)).

(** ** Dictionary items (shared by objects and snapshots) *)

Section Items.
Context {A : Type}.

(** [d[key]], [None] when [key not in d]. *)
Fixpoint dict_get (key : string) (items : list (string * A)) : option A :=
  match items with
  | [] => None
  | (k, v) :: rest => if String.eqb key k then Some v else dict_get key rest
  end.

(** [d[key] = v]: an existing key keeps its position, a new key goes last. *)
Fixpoint dict_set (key : string) (v : A) (items : list (string * A))
    : list (string * A) :=
  match items with
  | [] => [(key, v)]
  | (k, w) :: rest =>
      if String.eqb key k then (k, v) :: rest
      else (k, w) :: dict_set key v rest
  end.

(** [d.update(other)] *)
Definition dict_update (items other : list (string * A)) : list (string * A) :=
  fold_left (fun acc kv => dict_set kv.1 kv.2 acc) other items.

Definition keys (items : list (string * A)) : list string := items.*1.
End Items.

(** ** The store monad *)

Definition M (A : Type) : Type := heap -> outcome A * heap.

Definition ret {A} (a : A) : M A := fun h => (Return a, h).
Definition raise {A} (e : exn) : M A := fun h => (Raise e, h).
Definition bind {A B} (m : M A) (k : A -> M B) : M B :=
  fun h => match m h with
           | (Return a, h') => k a h'
           | (Raise e, h') => (Raise e, h')
           end.

Declare Scope py_scope.
Notation "'let*' x ':=' m 'in' k" := (bind m (fun x => k))
  (at level 10, x pattern, m at level 100, k at level 200, only parsing)
  : py_scope.
Notation "m ';;' k" := (bind m (fun _ => k))
  (at level 100, k at level 200, right associativity, only parsing)
  : py_scope.
Open Scope py_scope.

(** A fresh object gets the next address. *)
Definition alloc (o : obj) : M val :=
  fun h => (Return (VRef (length h)), h ++ [o]).

Definition get_dict (h : heap) (v : val) : option (list (string * val)) :=
  match v with
  | VRef a => match h !! a with Some (ODict items) => Some items | _ => None end
  | _ => None
  end.

Definition get_list (h : heap) (v : val) : option (list val) :=
  match v with
  | VRef a => match h !! a with Some (OList elems) => Some elems | _ => None end
  | _ => None
  end.

Definition read_dict (v : val) : M (list (string * val)) :=
  fun h => match get_dict h v with
           | Some items => (Return items, h)
           | None => (Raise TypeError, h)
           end.

Definition read_list (v : val) : M (list val) :=
  fun h => match get_list h v with
           | Some elems => (Return elems, h)
           | None => (Raise TypeError, h)
           end.

(** [isinstance(v, MutableMapping)] and [isinstance(v, MutableSequence)] *)
Definition is_mapping (h : heap) (v : val) : bool :=
  match get_dict h v with Some _ => true | None => false end.
Definition is_mutable_sequence (h : heap) (v : val) : bool :=
  match get_list h v with Some _ => true | None => false end.

Definition isinstance_MutableMapping (v : val) : M bool :=
  fun h => (Return (is_mapping h v), h).
Definition isinstance_MutableSequence (v : val) : M bool :=
  fun h => (Return (is_mutable_sequence h v), h).

(** [d[key] = v] on the object [d] refers to *)
Definition dict_setitem (d : val) (key : string) (v : val) : M unit :=
  fun h => match d with
           | VRef a =>
               match h !! a with
               | Some (ODict items) =>
                   (Return tt, <[a := ODict (dict_set key v items)]> h)
               | _ => (Raise TypeError, h)
               end
           | _ => (Raise TypeError, h)
           end.

(** [d.copy()]: a new dictionary object holding the same values *)
Definition dict_copy (d : val) : M val :=
  let* items := read_dict d in alloc (ODict items).

(** [d.update(other)] on the object [d] refers to *)
Definition dict_update_in_place (d other : val) : M unit :=
  let* theirs := read_dict other in
  fun h => match d with
           | VRef a =>
               match h !! a with
               | Some (ODict items) =>
                   (Return tt, <[a := ODict (dict_update items theirs)]> h)
               | _ => (Raise TypeError, h)
               end
           | _ => (Raise TypeError, h)
           end.

Fixpoint for_each {A} (body : A -> M unit) (l : list A) : M unit :=
  match l with
  | [] => ret tt
  | a :: rest => body a;; for_each body rest
  end.

(** ** Python equality

    [==] on the values of the universe.  Booleans are integers
    ([True == 1]); lists compare element-wise after a length check;
    dictionaries compare key-wise after a length check, whatever the
    insertion order.  [None] stands for a comparison that did not complete:
    the recursion limit was reached, or a reference is not allocated. *)

Fixpoint seq_eq (eq : val -> val -> option bool) (l1 l2 : list val)
    : option bool :=
  match l1, l2 with
  | [], [] => Some true
  | v :: l1', w :: l2' =>
      match eq v w with
      | Some true => seq_eq eq l1' l2'
      | r => r
      end
  | _, _ => Some false
  end.

Fixpoint items_eq (eq : val -> val -> option bool)
    (d1 d2 : list (string * val)) : option bool :=
  match d1 with
  | [] => Some true
  | (k, v) :: rest =>
      match dict_get k d2 with
      | None => Some false
      | Some w =>
          match eq v w with
          | Some true => items_eq eq rest d2
          | r => r
          end
      end
  end.

Definition obj_eq (eq : val -> val -> option bool) (o1 o2 : obj)
    : option bool :=
  match o1, o2 with
  | OList l1, OList l2 =>
      if Nat.eqb (length l1) (length l2) then seq_eq eq l1 l2 else Some false
  | ODict d1, ODict d2 =>
      if Nat.eqb (length d1) (length d2) then items_eq eq d1 d2 else Some false
  | _, _ => Some false
  end.

(** [v is w] *)
Definition same_object (v w : val) : bool :=
  match v, w with
  | VRef a, VRef b => Nat.eqb a b
  | _, _ => false
  end.

(** The comparison containers make on their elements: identical objects
    are equal without being compared. *)
Definition identical_or (eq : val -> val -> option bool) (v w : val)
    : option bool :=
  if same_object v w then Some true else eq v w.

Fixpoint py_eq (fuel : nat) (h : heap) (v w : val) {struct fuel} : option bool :=
  match v, w with
  | VNone, VNone => Some true
  | VBool a, VBool b => Some (Bool.eqb a b)
  | VBool a, VInt n => Some (Z.b2z a =? n)%Z
  | VInt n, VBool a => Some (n =? Z.b2z a)%Z
  | VInt m, VInt n => Some (m =? n)%Z
  | VStr s, VStr t => Some (String.eqb s t)
  | VRef a, VRef b =>
      match fuel with
      | 0 => None
      | S f =>
          match h !! a, h !! b with
          | Some o1, Some o2 => obj_eq (identical_or (py_eq f h)) o1 o2
          | _, _ => None
          end
      end
  | _, _ => Some false
  end.

(** [v == {}] *)
Definition py_eq_empty_dict (fuel : nat) (h : heap) (v : val) : option bool :=
  match v with
  | VRef a =>
      match h !! a with
      | Some o => obj_eq (identical_or (py_eq fuel h)) o (ODict [])
      | None => None
      end
  | _ => Some false
  end.

(** [z in l] *)
Fixpoint py_in (eq : val -> val -> option bool) (z : val) (l : list val)
    : option bool :=
  match l with
  | [] => Some false
  | e :: rest =>
      match eq e z with
      | Some false => py_in eq z rest
      | r => r
      end
  end.

(** [[z for z in xs if z not in ys]] *)
Fixpoint not_present (eq : val -> val -> option bool) (xs ys : list val)
    : option (list val) :=
  match xs with
  | [] => Some []
  | z :: rest =>
      match py_in eq z ys with
      | None => None
      | Some b =>
          match not_present eq rest ys with
          | None => None
          | Some r => Some (if b then r else z :: r)
          end
      end
  end.

Definition or_recursion_error {A} (r : option A) : M A :=
  fun h => match r with
           | Some a => (Return a, h)
           | None => (Raise RecursionError, h)
           end.

(** ** The merger *)

Definition nl : string := String (Ascii.ascii_of_nat 10) EmptyString.

Definition list_merge_values : list string :=
  ["replace"; "keep"; "append"; "prepend"; "append_rp"; "prepend_rp"].

Definition str_in (s : string) (l : list string) : bool :=
  existsb (String.eqb s) l.

Definition policy_msg : string :=
  "merge_hash: 'list_merge' argument can only be equal to 'replace', 'keep', 'append', 'prepend', 'append_rp' or 'prepend_rp'".

(** [v.__class__.__name__] *)
Definition class_name (h : heap) (v : val) : string :=
  match v with
  | VNone => "NoneType"
  | VBool _ => "bool"
  | VInt _ => "int"
  | VStr _ => "str"
  | VRef a =>
      match h !! a with
      | Some (ODict _) => "dict"
      | Some (OList _) => "list"
      | None => "object"
      end
  end.

Section Merge.

(** [json.dumps] and Ansible's [to_native] are library functions; they
    only feed the text of an error message.  [dumps] answers [None] when
    the library call raises. *)
Variable dumps : heap -> val -> option string.
Variable to_native : heap -> val -> string.

Definition serialize (h : heap) (v : val) : string :=
  match dumps h v with
  | Some s => s
  | None => to_native h v
  end.

Definition mismatch_msg (h : heap) (a b : val) : string :=
  "failed to combine variables, expected dicts but got a '"
    +:+ class_name h a +:+ "' and a '" +:+ class_name h b +:+ "': "
    +:+ nl +:+ serialize h a +:+ nl +:+ serialize h b.

Definition _validate_mutable_mappings (a b : val) : M unit :=
  fun h =>
    if negb (is_mapping h a && is_mapping h b)
    then (Raise (AnsibleError (mismatch_msg h a b)), h)
    else (Return tt, h).

(** The list branch of the loop: both values are lists. *)
Definition merge_lists (fuel : nat) (list_merge : string)
    (x : val) (key : string) (x_value y_value : val) : M unit :=
  if String.eqb list_merge "replace" then
    dict_setitem x key y_value
  else if String.eqb list_merge "append" then
    let* xs := read_list x_value in
    let* ys := read_list y_value in
    let* r := alloc (OList (xs ++ ys)) in
    dict_setitem x key r
  else if String.eqb list_merge "prepend" then
    let* xs := read_list x_value in
    let* ys := read_list y_value in
    let* r := alloc (OList (ys ++ xs)) in
    dict_setitem x key r
  else if String.eqb list_merge "append_rp" then
    let* xs := read_list x_value in
    let* ys := read_list y_value in
    let* kept := (fun h =>
      or_recursion_error (not_present (identical_or (py_eq fuel h)) xs ys) h) in
    let* r := alloc (OList (kept ++ ys)) in
    dict_setitem x key r
  else if String.eqb list_merge "prepend_rp" then
    let* xs := read_list x_value in
    let* ys := read_list y_value in
    let* kept := (fun h =>
      or_recursion_error (not_present (identical_or (py_eq fuel h)) xs ys) h) in
    let* r := alloc (OList (ys ++ kept)) in
    dict_setitem x key r
  else
    ret tt.

(** One turn of [for key, y_value in iteritems(y)]; [self] is the
    recursive call. *)
Definition merge_item (self : val -> val -> M val) (fuel : nat)
    (recursive : bool) (list_merge : string) (x : val)
    (kv : string * val) : M unit :=
  let '(key, y_value) := kv in
  let* x_items := read_dict x in
  match dict_get key x_items with
  | None => dict_setitem x key y_value
  | Some x_value =>
      let* xm := isinstance_MutableMapping x_value in
      let* ym := isinstance_MutableMapping y_value in
      if xm && ym then
        if recursive then
          let* r := self x_value y_value in
          dict_setitem x key r
        else dict_setitem x key y_value
      else
        let* xl := isinstance_MutableSequence x_value in
        let* yl := isinstance_MutableSequence y_value in
        if xl && yl then merge_lists fuel list_merge x key x_value y_value
        else dict_setitem x key y_value
  end.

(** [merge_hash(x, y, recursive, list_merge)].  The loop runs over the
    items [y] has when the loop starts: nothing in the loop assigns to the
    object [y] refers to, so the live iterator of [iteritems(y)] sees the
    same items.  The literal [{}] of line 48 and the list built by the
    comprehensions of lines 106 and 109 are temporaries no one else can
    reach; they are not allocated in the store. *)
Fixpoint merge_hash (fuel : nat) (x y : val) (recursive : bool)
    (list_merge : string) {struct fuel} : M val :=
  if negb (str_in list_merge list_merge_values) then
    raise (AnsibleError policy_msg)
  else
    _validate_mutable_mappings x y;;
    let* same := (fun h =>
      or_recursion_error (match py_eq_empty_dict fuel h x with
               | Some false => py_eq fuel h x y
               | r => r
               end) h) in
    if same then dict_copy y
    else
      let* x := dict_copy x in
      if negb recursive && String.eqb list_merge "replace" then
        dict_update_in_place x y;;
        ret x
      else
        let* y_items := read_dict y in
        for_each
          (merge_item
             (match fuel with
              | 0 => fun _ _ => raise RecursionError
              | S f => fun x_value y_value =>
                  merge_hash f x_value y_value recursive list_merge
              end)
             fuel recursive list_merge x)
          y_items;;
        ret x.

(** The recursive call the loop of [merge_hash fuel] makes. *)
Definition self_call (fuel : nat) (recursive : bool) (list_merge : string)
    : val -> val -> M val :=
  match fuel with
  | 0 => fun _ _ => raise RecursionError
  | S f => fun x_value y_value =>
      merge_hash f x_value y_value recursive list_merge
  end.

(** [merge_hash] with the two shortcuts taken out: the loop alone. *)
Fixpoint merge_hash_general (fuel : nat) (x y : val) (recursive : bool)
    (list_merge : string) {struct fuel} : M val :=
  if negb (str_in list_merge list_merge_values) then
    raise (AnsibleError policy_msg)
  else
    _validate_mutable_mappings x y;;
    let* x := dict_copy x in
    let* y_items := read_dict y in
    for_each
      (merge_item
         (match fuel with
          | 0 => fun _ _ => raise RecursionError
          | S f => fun x_value y_value =>
              merge_hash_general f x_value y_value recursive list_merge
          end)
         fuel recursive list_merge x)
      y_items;;
    ret x.

End Merge.

(** ** The flattener *)

(** [element in (None, 'None', 'null')] *)
Definition is_undefined (element : val) : bool :=
  match element with
  | VNone => true
  | VStr s => String.eqb s "None" || String.eqb s "null"
  | _ => false
  end.

(** [is_sequence]: a sequence that is not a string; lists, in this
    universe. *)
Definition is_sequence (h : heap) (element : val) : bool :=
  match get_list h element with Some _ => true | None => false end.

(** The loop of [flatten]; [self element levels] is the recursive call
    [flatten(element, levels)].  [ret] is built front to back, so the
    elements that follow a spliced sub-list are appended after it. *)
Fixpoint flatten_loop (self : val -> option Z -> option (list val))
    (h : heap) (levels : option Z) (mylist : list val) : option (list val) :=
  match mylist with
  | [] => Some []
  | element :: rest =>
      if is_undefined element then Some []
      else if is_sequence h element then
        match levels with
        | None =>
            sub ← self element None;
            more ← flatten_loop self h levels rest;
            Some (sub ++ more)
        | Some n =>
            if (1 <=? n)%Z then
              sub ← self element (Some (n - 1)%Z);
              more ← flatten_loop self h levels rest;
              Some (sub ++ more)
            else
              more ← flatten_loop self h levels rest;
              Some (element :: more)
        end
      else
        more ← flatten_loop self h levels rest;
        Some (element :: more)
  end.

(** [flatten(mylist, levels)]; [mylist] is given by its elements, the
    result by the elements of the new list.  [None]: recursion limit. *)
Fixpoint flatten (fuel : nat) (h : heap) (mylist : list val)
    (levels : option Z) {struct fuel} : option (list val) :=
  flatten_loop
    (fun element levels' =>
       match fuel with
       | 0 => None
       | S f =>
           match get_list h element with
           | Some elems => flatten f h elems levels'
           | None => None
           end
       end)
    h levels mylist.

(** The recursive call [flatten fuel] makes on a nested list. *)
Definition descend (fuel : nat) (h : heap) (element : val)
    (levels : option Z) : option (list val) :=
  match fuel with
  | 0 => None
  | S f =>
      match get_list h element with
      | Some elems => flatten f h elems levels
      | None => None
      end
  end.

(** ** The driver *)

(** The keyword arguments of a call: the two options the filter knows,
    and the names of any others. *)
Record kwargs := {
  kw_recursive : option bool;
  kw_list_merge : option string;
  kw_others : list string
}.

Section Driver.

Variable dumps : heap -> val -> option string.
Variable to_native : heap -> val -> string.

(** The host's check that one document is fully resolved: it reads the
    store and returns, or raises (on an undefined value, or when its
    walk through the document does not end). *)
Variable check_defined : heap -> val -> outcome unit.

(** Modelled from the spec: [recursive_check_defined] is Ansible's and is
    not in the repository.  Section 4.4 requires every flattened element
    to be a resolved value before any merge and fails otherwise; sections
    6 and 9 make the test of one value a check the host supplies.  The
    call runs [check_defined] on the elements in order and stops at the
    first that raises; it does not write to the store. *)
Definition recursive_check_defined (dictionaries : list val) : M unit :=
  for_each (fun d h => (check_defined h d, h)) dictionaries.

(** [for dictionary in high_to_low_prio_dict_iterator: ...] *)
Fixpoint merge_high_to_low (fuel : nat) (recursive : bool)
    (list_merge : string) (result : val) (iterator : list val) : M val :=
  match iterator with
  | [] => ret result
  | dictionary :: rest =>
      let* result :=
        merge_hash dumps to_native fuel dictionary result recursive list_merge in
      merge_high_to_low fuel recursive list_merge result rest
  end.

(** Lines 171-176: [reversed], [next], and the loop. *)
Definition combine_fold (fuel : nat) (recursive : bool) (list_merge : string)
    (dictionaries : list val) : M val :=
  match reverse dictionaries with
  | [] => raise StopIteration
  | result :: iterator =>
      merge_high_to_low fuel recursive list_merge result iterator
  end.

Definition combine_devel (fuel : nat) (terms : list val) (kw : kwargs)
    : M val :=
  let recursive := default false (kw_recursive kw) in
  let list_merge := default "replace" (kw_list_merge kw) in
  if negb (Nat.eqb (length (kw_others kw)) 0) then
    raise (AnsibleFilterError
      "'recursive' and 'list_merge' are the only valid keyword arguments")
  else
    let* dictionaries :=
      (fun h => or_recursion_error (flatten fuel h terms (Some 1%Z)) h) in
    recursive_check_defined dictionaries;;
    match dictionaries with
    | [] => alloc (ODict [])
    | [only] => ret only
    | _ => combine_fold fuel recursive list_merge dictionaries
    end.

(** The fold of the specification: the accumulator starts at the first
    document, each later document is merged over it as [y]. *)
Fixpoint merge_low_to_high (fuel : nat) (recursive : bool)
    (list_merge : string) (acc : val) (later : list val) : M val :=
  match later with
  | [] => ret acc
  | dictionary :: rest =>
      let* acc :=
        merge_hash dumps to_native fuel acc dictionary recursive list_merge in
      merge_low_to_high fuel recursive list_merge acc rest
  end.

Definition left_to_right_fold (fuel : nat) (recursive : bool)
    (list_merge : string) (dictionaries : list val) : M val :=
  match dictionaries with
  | [] => raise StopIteration
  | first :: later =>
      merge_low_to_high fuel recursive list_merge first later
  end.

End Driver.

(** ** Reading a snapshot off the store *)

(** [read_with look n v]: the value [v] stands for when objects are
    fetched with [look], nested at most [n] deep; it fails on a dictionary
    with a repeated key. *)
Fixpoint read_with (look : addr -> option obj) (n : nat) (v : val)
    {struct n} : option data :=
  match v with
  | VNone => Some DNone
  | VBool b => Some (DBool b)
  | VInt z => Some (DInt z)
  | VStr s => Some (DStr s)
  | VRef a =>
      match n with
      | 0 => None
      | S m =>
          match look a with
          | Some (OList elems) => DList <$> mapM (read_with look m) elems
          | Some (ODict items) =>
              if bool_decide (NoDup (keys items)) then
                DDict <$> mapM (fun kv => pair kv.1 <$> read_with look m kv.2)
                               items
              else None
          | None => None
          end
      end
  end.

Definition snapshot (n : nat) (h : heap) (v : val) : option data :=
  read_with (fun a => h !! a) n v.

(** ** Equality and merging of snapshots

    The same operations on snapshots, as pure functions; the theorems
    below show that the store-passing code computes them. *)

Fixpoint seq_eqb {A B} (eq : A -> B -> bool) (l1 : list A) (l2 : list B)
    : bool :=
  match l1, l2 with
  | [], [] => true
  | v :: l1', w :: l2' => eq v w && seq_eqb eq l1' l2'
  | _, _ => false
  end.

Fixpoint items_eqb {A B} (eq : A -> B -> bool) (d1 : list (string * A))
    (d2 : list (string * B)) : bool :=
  match d1 with
  | [] => true
  | (k, v) :: rest =>
      match dict_get k d2 with
      | None => false
      | Some w => eq v w && items_eqb eq rest d2
      end
  end.

Fixpoint data_eq (t u : data) {struct t} : bool :=
  match t, u with
  | DNone, DNone => true
  | DBool a, DBool b => Bool.eqb a b
  | DBool a, DInt n => (Z.b2z a =? n)%Z
  | DInt n, DBool a => (n =? Z.b2z a)%Z
  | DInt m, DInt n => (m =? n)%Z
  | DStr s, DStr s' => String.eqb s s'
  | DList l1, DList l2 =>
      Nat.eqb (length l1) (length l2) && seq_eqb data_eq l1 l2
  | DDict d1, DDict d2 =>
      Nat.eqb (length d1) (length d2) && items_eqb data_eq d1 d2
  | _, _ => false
  end.

Definition data_in (z : data) (l : list data) : bool :=
  existsb (fun e => data_eq e z) l.

Definition data_not_present (xs ys : list data) : list data :=
  filter (fun z => data_in z ys = false) xs.

Definition merge_lists_data (list_merge : string) (key : string)
    (xs ys : list data) (acc : list (string * data)) : list (string * data) :=
  if String.eqb list_merge "replace" then dict_set key (DList ys) acc
  else if String.eqb list_merge "append" then
    dict_set key (DList (xs ++ ys)) acc
  else if String.eqb list_merge "prepend" then
    dict_set key (DList (ys ++ xs)) acc
  else if String.eqb list_merge "append_rp" then
    dict_set key (DList (data_not_present xs ys ++ ys)) acc
  else if String.eqb list_merge "prepend_rp" then
    dict_set key (DList (ys ++ data_not_present xs ys)) acc
  else acc.

Definition merge_item_data (self : data -> data -> data) (recursive : bool)
    (list_merge : string) (acc : list (string * data)) (kv : string * data)
    : list (string * data) :=
  match dict_get kv.1 acc with
  | None => dict_set kv.1 kv.2 acc
  | Some x_value =>
      match x_value, kv.2 with
      | DDict _, DDict _ =>
          if recursive then dict_set kv.1 (self x_value kv.2) acc
          else dict_set kv.1 kv.2 acc
      | DList xs, DList ys => merge_lists_data list_merge kv.1 xs ys acc
      | _, _ => dict_set kv.1 kv.2 acc
      end
  end.

Fixpoint merge_data (recursive : bool) (list_merge : string) (x y : data)
    {struct y} : data :=
  match x, y with
  | DDict dx, DDict dy =>
      if Nat.eqb (length dx) 0 || data_eq x y then y
      else if negb recursive && String.eqb list_merge "replace" then
        DDict (dict_update dx dy)
      else
        DDict (fold_left
                 (merge_item_data (merge_data recursive list_merge)
                    recursive list_merge)
                 dy dx)
  | _, _ => y
  end.

(** ** Relating the store to snapshots *)

(** [sub look look']: [look'] knows every object [look] knows. *)
Definition sub (look look' : addr -> option obj) : Prop :=
  forall a o, look a = Some o -> look' a = Some o.

Definition with_obj (look : addr -> option obj) (a : addr) (o : obj)
    : addr -> option obj :=
  fun b => if decide (b = a) then Some o else look b.

Definition items_rel {A B} (R : A -> B -> Prop)
    : list (string * A) -> list (string * B) -> Prop :=
  Forall2 (fun kv kt => kv.1 = kt.1 /\ R kv.2 kt.2).

Definition data_is_dict (t : data) : bool :=
  match t with DDict _ => true | _ => false end.
Definition data_is_list (t : data) : bool :=
  match t with DList _ => true | _ => false end.

(** The state of the loop of [merge_hash] on a store [H] that started as
    [h]: the copy of [x] is the first object allocated, it holds [items],
    and [items] read as [acc] through [Lc], which does not know the copy. *)
Definition loop_inv (L : addr -> option obj) (h : heap) (m : nat)
    (H : heap) (Lc : addr -> option obj)
    (items : list (string * val)) (acc : list (string * data)) : Prop :=
  h `prefix_of` H /\
  H !! length h = Some (ODict items) /\
  sub L Lc /\
  sub Lc (fun a => H !! a) /\
  Lc (length h) = None /\
  (forall b, b < length h -> Lc b = L b) /\
  NoDup (keys items) /\
  items_rel (fun v t => read_with Lc m v = Some t) items acc.

(** What a call [self x_value y_value] on two mappings has to deliver. *)
Definition merges_at (self : val -> val -> M val) (m : nat)
    (recursive : bool) (list_merge : string) : Prop :=
  forall (Lc : addr -> option obj) (H : heap) xv yv dx dy,
    sub Lc (fun a => H !! a) ->
    read_with Lc m xv = Some (DDict dx) ->
    read_with Lc m yv = Some (DDict dy) ->
    exists H' L',
      self xv yv H = (Return (VRef (length H)), H') /\
      H `prefix_of` H' /\
      sub Lc L' /\
      sub L' (fun a => H' !! a) /\
      (forall b, b < length H -> L' b = Lc b) /\
      read_with L' m (VRef (length H))
        = Some (merge_data recursive list_merge (DDict dx) (DDict dy)).

(** [m] never raises the policy error. *)
Definition no_policy_error {A} (m : M A) : Prop :=
  forall h, (m h).1 <> Raise (AnsibleError policy_msg).

(** ** Comparing the two folds *)

(** Both folds return, and the two results are equal as Python values. *)
Definition folds_agree (dumps : heap -> val -> option string)
    (to_native : heap -> val -> string) (fuel : nat) (h : heap)
    (dictionaries : list val) (recursive : bool) (list_merge : string)
    : Prop :=
  exists r1 h1 r2 h2 t1 t2,
    combine_fold dumps to_native fuel recursive list_merge dictionaries h
      = (Return r1, h1) /\
    left_to_right_fold dumps to_native fuel recursive list_merge dictionaries h
      = (Return r2, h2) /\
    snapshot fuel h1 r1 = Some t1 /\
    snapshot fuel h2 r2 = Some t2 /\
    data_eq t1 t2 = true.

(** The entry for [k] in the last dictionary that has one. *)
Definition last_entry (k : string) (dicts : list (list (string * data)))
    : option data :=
  fold_left (fun r dd => match dict_get k dd with Some v => Some v | None => r end)
    dicts None.

(** [merge_hash(x, y, recursive, list_merge)] returns a value that reads as
    [expected]. *)
Definition merges_to (dumps : heap -> val -> option string)
    (to_native : heap -> val -> string) (fuel : nat) (h : heap) (x y : val)
    (recursive : bool) (list_merge : string) (expected : data) : Prop :=
  exists r h',
    merge_hash dumps to_native fuel x y recursive list_merge h
      = (Return r, h') /\
    snapshot fuel h' r = Some expected.

(** The snapshot of what a call returned. *)
Definition result_snapshot (fuel : nat) (run : outcome val * heap)
    : option data :=
  match run with
  | (Return r, h) => snapshot fuel h r
  | (Raise _, _) => None
  end.

(** ** An instance of the library functions, and sample stores

    [example_dumps] writes a value the way [json.dumps] does when no
    string needs escaping, and raises on a value that is not a finite
    tree; [example_to_native] stands for the fallback text. *)

Definition quote : string := String (Ascii.ascii_of_nat 34) EmptyString.

Fixpoint json (t : data) : string :=
  match t with
  | DNone => "null"
  | DBool true => "true"
  | DBool false => "false"
  | DInt n => pretty n
  | DStr s => quote +:+ s +:+ quote
  | DList l => "[" +:+ String.concat ", " (map json l) +:+ "]"
  | DDict d =>
      "{" +:+ String.concat ", "
                (map (fun kv => quote +:+ kv.1 +:+ quote +:+ ": " +:+ json kv.2) d)
          +:+ "}"
  end.

Definition example_dumps (h : heap) (v : val) : option string :=
  json <$> snapshot (length h) h v.

Definition example_to_native (h : heap) (v : val) : string :=
  "<" +:+ class_name h v +:+ ">".

(** The check of a host whose values are all defined: the walk through a
    finite document returns, the walk through any other does not end. *)
Definition example_check_defined (h : heap) (v : val) : outcome unit :=
  match snapshot (length h) h v with
  | Some _ => Return tt
  | None => Raise RecursionError
  end.

(** [x = {'l': [1, 2, 3]}] at address 2, [y = {'l': [3, 4]}] at address 3 *)
Definition policy_heap : heap :=
  [OList [VInt 1; VInt 2; VInt 3]; OList [VInt 3; VInt 4];
   ODict [("l", VRef 0)]; ODict [("l", VRef 1)]].

(** [x = {'l': [1]}] at address 2, [y = {'l': [1]}] at address 3 *)
Definition equal_lists_heap : heap :=
  [OList [VInt 1]; OList [VInt 1];
   ODict [("l", VRef 0)]; ODict [("l", VRef 1)]].

(** [{'a': {'b': 1}}] at 1, [{'a': 5}] at 2, [{'a': {'c': 2}}] at 4 *)
Definition mixed_heap : heap :=
  [ODict [("b", VInt 1)]; ODict [("a", VRef 0)]; ODict [("a", VInt 5)];
   ODict [("c", VInt 2)]; ODict [("a", VRef 3)]].

(** [{'l': [1]}] at 1, [{'l': 5}] at 2, [{'l': [2]}] at 4 *)
Definition lists_heap : heap :=
  [OList [VInt 1]; ODict [("l", VRef 0)]; ODict [("l", VInt 5)];
   OList [VInt 2]; ODict [("l", VRef 3)]].

(** [[1, 2]] at 0, [{'a': 1}] at 1, [{}] at 2 *)
Definition mismatch_heap : heap :=
  [OList [VInt 1; VInt 2]; ODict [("a", VInt 1)]; ODict []].

(** [[3, 4]] at 0, [[2, [3, 4]]] at 1, [[1, None, 2]] at 2 *)
Definition nested_heap : heap :=
  [OList [VInt 3; VInt 4]; OList [VInt 2; VRef 0];
   OList [VInt 1; VNone; VInt 2]].

(** ** More vocabulary for the statements *)

(** [levels] lets [flatten] descend into a nested list. *)
Definition descends (levels : option Z) : bool :=
  match levels with
  | None => true
  | Some n => (1 <=? n)%Z
  end.

(** The [levels] of the recursive call. *)
Definition levels_below (levels : option Z) : option Z :=
  (fun n => (n - 1)%Z) <$> levels.

(** The exceptions the merger can raise. *)
Definition merge_exn (e : exn) : Prop :=
  match e with
  | AnsibleError _ | RecursionError | TypeError => True
  | AnsibleFilterError _ | StopIteration => False
  end.

(** [keeps k E Q m]: run on a store of at least [k] objects, [m] leaves
    the first [k] objects as they are and drops none; what it returns
    satisfies [Q], what it raises satisfies [E]. *)
Definition keeps {A} (k : nat) (E : exn -> Prop) (Q : A -> Prop) (m : M A)
    : Prop :=
  forall h : heap, k <= length h ->
    take k (m h).2 = take k h /\
    length h <= length (m h).2 /\
    match (m h).1 with
    | Return a => Q a
    | Raise e => E e
    end.

(** [stays_dict a m]: if the object at [a] is a dictionary before [m]
    runs, it is one after. *)
Definition stays_dict {A} (a : addr) (m : M A) : Prop :=
  forall (H : heap) items,
    H !! a = Some (ODict items) ->
    exists items', (m H).2 !! a = Some (ODict items').

(** A reference to an object at address [k] or above. *)
Definition ref_from (k : nat) (v : val) : Prop :=
  exists b, v = VRef b /\ k <= b.

(** What the list branch of the loop stores for two colliding lists. *)
Definition merge_list_values (list_merge : string) (xs ys : list data)
    : list data :=
  if String.eqb list_merge "replace" then ys
  else if String.eqb list_merge "append" then xs ++ ys
  else if String.eqb list_merge "prepend" then ys ++ xs
  else if String.eqb list_merge "append_rp" then data_not_present xs ys ++ ys
  else if String.eqb list_merge "prepend_rp" then ys ++ data_not_present xs ys
  else xs.

(** What the loop stores under a key both operands have. *)
Definition merge_values (recursive : bool) (list_merge : string)
    (x_value y_value : data) : data :=
  match x_value, y_value with
  | DDict _, DDict _ =>
      if recursive then merge_data recursive list_merge x_value y_value
      else y_value
  | DList xs, DList ys => DList (merge_list_values list_merge xs ys)
  | _, _ => y_value
  end.

(** The entry the loop leaves under [k]. *)
Definition merged_entry (recursive : bool) (list_merge : string)
    (dx dy : list (string * data)) (k : string) : option data :=
  match dict_get k dy with
  | None => dict_get k dx
  | Some y_value =>
      match dict_get k dx with
      | None => Some y_value
      | Some x_value => Some (merge_values recursive list_merge x_value y_value)
      end
  end.

(** The keys of [dy] that [dx] does not have, in the order of [dy]. *)
Definition new_keys {A B} (dx : list (string * A)) (dy : list (string * B))
    : list string :=
  filter (fun k => k ∉ keys dx) (keys dy).

(** A call without keyword arguments. *)
Definition no_kwargs : kwargs :=
  {| kw_recursive := None; kw_list_merge := None; kw_others := [] |}.

(** [mixed_heap] and, at address 5, the list of its three documents. *)
Definition listed_heap : heap :=
  mixed_heap ++ [OList [VRef 1; VRef 2; VRef 4]].

(** * Proofs *)

(** ** Dictionary items *)

Section ItemsFacts.
Context {A : Type}.
Implicit Types (items : list (string * A)) (k : string) (v : A).

Lemma dict_get_None k items : dict_get k items = None <-> k ∉ keys items.
Proof.
  unfold keys. induction items as [|[k' w] rest IH]; simpl.
  - split; [intros _; apply not_elem_of_nil | done].
  - rewrite not_elem_of_cons. destruct (String.eqb_spec k k') as [->|Hne].
    + split; [done | intros [? _]; done].
    + rewrite IH. tauto.
Qed.

Lemma dict_get_Some_keys k v items : dict_get k items = Some v -> k ∈ keys items.
Proof.
  intros H. destruct (decide (k ∈ keys items)) as [|Hn]; [done|].
  apply dict_get_None in Hn. congruence.
Qed.

Lemma dict_get_is_Some k items : k ∈ keys items -> is_Some (dict_get k items).
Proof.
  intros H. destruct (dict_get k items) eqn:E; [eauto|].
  apply dict_get_None in E. done.
Qed.

Lemma dict_set_absent k v items :
  dict_get k items = None -> dict_set k v items = items ++ [(k, v)].
Proof.
  induction items as [|[k' w] rest IH]; simpl; [done|].
  destruct (String.eqb k k'); [done|]. intros H. by rewrite IH.
Qed.

Lemma keys_dict_set_present k v items :
  k ∈ keys items -> keys (dict_set k v items) = keys items.
Proof.
  unfold keys. induction items as [|[k' w] rest IH]; simpl.
  - by intros ?%elem_of_nil.
  - destruct (String.eqb_spec k k') as [->|Hne]; [done|].
    intros [?|?]%elem_of_cons; [done|]. rewrite fmap_cons. simpl. by rewrite IH.
Qed.

Lemma elem_of_keys_dict_set k v items k' :
  k' ∈ keys (dict_set k v items) <-> k' = k \/ k' ∈ keys items.
Proof.
  destruct (decide (k ∈ keys items)) as [Hin|Hn].
  - rewrite keys_dict_set_present by done.
    split; [tauto | intros [->|]; done].
  - apply dict_get_None in Hn. rewrite dict_set_absent by done.
    unfold keys. rewrite fmap_app, elem_of_app. simpl.
    rewrite list_elem_of_singleton. tauto.
Qed.

Lemma NoDup_keys_dict_set k v items :
  NoDup (keys items) -> NoDup (keys (dict_set k v items)).
Proof.
  intros Hnd. destruct (decide (k ∈ keys items)) as [Hin|Hn].
  - by rewrite keys_dict_set_present.
  - pose proof Hn as Hg%dict_get_None. rewrite dict_set_absent by done.
    unfold keys in *. rewrite fmap_app. simpl.
    apply NoDup_app. split_and!; [done| |apply NoDup_singleton].
    intros x Hx ->%list_elem_of_singleton. done.
Qed.

Lemma dict_get_set k v items k' :
  dict_get k' (dict_set k v items) =
    if String.eqb k' k then Some v else dict_get k' items.
Proof.
  induction items as [|[k0 w] rest IH]; simpl.
  - by destruct (String.eqb k' k).
  - destruct (String.eqb_spec k k0) as [->|Hne]; simpl.
    + by destruct (String.eqb k' k0).
    + destruct (String.eqb_spec k' k0) as [->|Hne'].
      * destruct (String.eqb_spec k0 k); congruence.
      * done.
Qed.

Lemma length_dict_set_present k v items :
  k ∈ keys items -> length (dict_set k v items) = length items.
Proof.
  intros H. apply keys_dict_set_present with (v := v) in H.
  unfold keys in H. apply (f_equal length) in H.
  by rewrite !length_fmap in H.
Qed.
End ItemsFacts.

(** ** Snapshots and the store *)

Lemma sub_refl look : sub look look.
Proof. by intros a o. Qed.

Lemma sub_trans l1 l2 l3 : sub l1 l2 -> sub l2 l3 -> sub l1 l3.
Proof. intros H1 H2 a o H. by apply H2, H1. Qed.

Lemma sub_with_obj look a o : look a = None -> sub look (with_obj look a o).
Proof.
  intros Hn b o' Hb. unfold with_obj. destruct (decide (b = a)); congruence.
Qed.

Lemma sub_lookup_app look (h h2 : heap) :
  sub look (fun a => h !! a) -> sub look (fun a => (h ++ h2) !! a).
Proof. intros H a o Ha. apply lookup_app_l_Some. by apply H. Qed.

Lemma sub_fresh look (h : heap) a :
  sub look (fun a => h !! a) -> length h <= a -> look a = None.
Proof.
  intros H Hle. destruct (look a) eqn:E; [|done].
  apply H in E. apply lookup_lt_Some in E. lia.
Qed.

Lemma items_rel_mapM {A} (f : A -> option data) (items : list (string * A)) dd :
  mapM (fun kv => pair kv.1 <$> f kv.2) items = Some dd <->
  items_rel (fun v t => f v = Some t) items dd.
Proof.
  rewrite mapM_Some. unfold items_rel.
  split; intros H; (eapply Forall2_impl; [exact H|]).
  - intros [k v] [k' t]; simpl. intros (t' & Ht & [= -> ->])%fmap_Some. done.
  - intros [k v] [k' t]; simpl. intros [-> ->]. done.
Qed.

Lemma items_rel_keys {A B} (R : A -> B -> Prop) items dd :
  items_rel R items dd -> keys items = keys dd.
Proof.
  unfold keys. induction 1 as [|[k v] [k' t] ? ? [Hk _]]; simpl in *; [done|].
  by f_equal.
Qed.

Lemma items_rel_length {A B} (R : A -> B -> Prop) items dd :
  items_rel R items dd -> length items = length dd.
Proof. apply Forall2_length. Qed.

Lemma items_rel_impl {A B} (R R' : A -> B -> Prop) items dd :
  items_rel R items dd -> (forall v t, R v t -> R' v t) -> items_rel R' items dd.
Proof.
  intros H HR. eapply Forall2_impl; [exact H|].
  intros [k v] [k' t]; simpl. intros [? ?]. split; [done | by apply HR].
Qed.

Lemma items_rel_dict_get {A B} (R : A -> B -> Prop) items dd k :
  items_rel R items dd ->
  match dict_get k items, dict_get k dd with
  | Some v, Some t => R v t
  | None, None => True
  | _, _ => False
  end.
Proof.
  induction 1 as [|[k1 v] [k2 t] ? ? [Hk HR]]; simpl in *; [done|].
  subst k2. by destruct (String.eqb k k1).
Qed.

Lemma items_rel_dict_set {A B} (R : A -> B -> Prop) items dd k v t :
  items_rel R items dd -> R v t ->
  items_rel R (dict_set k v items) (dict_set k t dd).
Proof.
  intros H HR. induction H as [|[k1 v1] [k2 t1] ? ? [Hk HR1]]; simpl in *.
  - by repeat constructor.
  - subst k2. destruct (String.eqb k k1); constructor; done.
Qed.

Lemma items_rel_dict_update {A B} (R : A -> B -> Prop) items dd other dother :
  items_rel R items dd -> items_rel R other dother ->
  items_rel R (dict_update items other) (dict_update dd dother).
Proof.
  intros H Ho. revert items dd H. unfold dict_update.
  induction Ho as [|[k1 v1] [k2 t1] ? ? [Hk HR1]]; intros items dd H;
    simpl in *; [done|].
  subst k2. apply IHHo. by apply items_rel_dict_set.
Qed.

Lemma read_with_list look m a elems dl :
  look a = Some (OList elems) ->
  Forall2 (fun v t => read_with look m v = Some t) elems dl ->
  read_with look (S m) (VRef a) = Some (DList dl).
Proof.
  intros Ha H. simpl. rewrite Ha.
  apply mapM_Some in H. by rewrite H.
Qed.

Lemma read_with_dict look m a items dd :
  look a = Some (ODict items) -> NoDup (keys items) ->
  items_rel (fun v t => read_with look m v = Some t) items dd ->
  read_with look (S m) (VRef a) = Some (DDict dd).
Proof.
  intros Ha Hnd H. simpl. rewrite Ha, bool_decide_eq_true_2 by done.
  apply items_rel_mapM in H. by rewrite H.
Qed.

Lemma read_with_DList look n v dl :
  read_with look n v = Some (DList dl) ->
  exists a elems m,
    v = VRef a /\ n = S m /\ look a = Some (OList elems) /\
    Forall2 (fun v t => read_with look m v = Some t) elems dl.
Proof.
  intros H0. destruct n as [|m], v as [| | | |a]; simpl in H0;
    try discriminate H0.
  revert H0.
  destruct (look a) as [[items|elems]|] eqn:Ha; [|..|discriminate].
  - case_bool_decide; [|discriminate].
    intros (? & _ & [=])%fmap_Some.
  - intros (dl' & H%mapM_Some & [= ->])%fmap_Some. by exists a, elems, m.
Qed.

Lemma read_with_DDict look n v dd :
  read_with look n v = Some (DDict dd) ->
  exists a items m,
    v = VRef a /\ n = S m /\ look a = Some (ODict items) /\
    NoDup (keys items) /\
    items_rel (fun v t => read_with look m v = Some t) items dd.
Proof.
  intros H0. destruct n as [|m], v as [| | | |a]; simpl in H0;
    try discriminate H0.
  revert H0.
  destruct (look a) as [[items|elems]|] eqn:Ha; [|..|discriminate].
  - case_bool_decide as Hnd; [|discriminate].
    intros (dd' & Hr%items_rel_mapM & [= ->])%fmap_Some. by exists a, items, m.
  - intros (? & _ & [=])%fmap_Some.
Qed.

Lemma read_with_ref look n a t :
  read_with look n (VRef a) = Some t ->
  (exists dl, t = DList dl) \/ (exists dd, t = DDict dd).
Proof.
  destruct n as [|m]; simpl; [discriminate|].
  destruct (look a) as [[items|elems]|]; [|..|discriminate].
  - case_bool_decide; [|discriminate].
    intros (? & _ & [= ->])%fmap_Some. eauto.
  - intros (? & _ & [= ->])%fmap_Some. eauto.
Qed.

Lemma read_with_sub look look' n v t :
  sub look look' -> read_with look n v = Some t -> read_with look' n v = Some t.
Proof.
  intros Hsub. revert v t. induction n as [|m IH]; intros v t H.
  - destruct v; simpl in *; congruence.
  - destruct v as [| | | |a]; try (simpl in *; congruence).
    destruct (read_with_ref _ _ _ _ H) as [[dl ->]|[dd ->]].
    + apply read_with_DList in H as (a' & elems & m' & [= <-] & [= <-] & Ha & H).
      eapply read_with_list; [by apply Hsub|].
      eapply Forall2_impl; [exact H|]. intros ? ?; apply IH.
    + apply read_with_DDict in H
        as (a' & items & m' & [= <-] & [= <-] & Ha & Hnd & H).
      eapply read_with_dict; [by apply Hsub|done|].
      eapply items_rel_impl; [exact H|]. intros ? ?; apply IH.
Qed.

Lemma read_with_S look n v t :
  read_with look n v = Some t -> read_with look (S n) v = Some t.
Proof.
  revert v t. induction n as [|m IH]; intros v t H.
  - destruct v; simpl in *; congruence.
  - destruct v as [| | | |a]; try (simpl in *; congruence).
    destruct (read_with_ref _ _ _ _ H) as [[dl ->]|[dd ->]].
    + apply read_with_DList in H as (a' & elems & m' & [= <-] & [= <-] & Ha & H).
      eapply read_with_list; [done|].
      eapply Forall2_impl; [exact H|]. intros ? ?; apply IH.
    + apply read_with_DDict in H
        as (a' & items & m' & [= <-] & [= <-] & Ha & Hnd & H).
      eapply read_with_dict; [done|done|].
      eapply items_rel_impl; [exact H|]. intros ? ?; apply IH.
Qed.

Lemma read_with_le look n n' v t :
  n <= n' -> read_with look n v = Some t -> read_with look n' v = Some t.
Proof.
  intros Hle. induction Hle; intros Hr; [done|]. by apply read_with_S, IHHle.
Qed.

(** ** Python equality computes snapshot equality *)

Lemma data_eq_DList l1 l2 :
  data_eq (DList l1) (DList l2) =
    Nat.eqb (length l1) (length l2) && seq_eqb data_eq l1 l2.
Proof. reflexivity. Qed.

Lemma data_eq_DDict d1 d2 :
  data_eq (DDict d1) (DDict d2) =
    Nat.eqb (length d1) (length d2) && items_eqb data_eq d1 d2.
Proof. reflexivity. Qed.

Section EqSpec.
Variables (R : val -> data -> Prop) (eq : val -> val -> option bool).
Hypothesis eq_spec :
  forall v t w u, R v t -> R w u -> eq v w = Some (data_eq t u).

Lemma seq_eq_spec l1 dl1 l2 dl2 :
  Forall2 R l1 dl1 -> Forall2 R l2 dl2 ->
  seq_eq eq l1 l2 = Some (seq_eqb data_eq dl1 dl2).
Proof.
  intros H1. revert l2 dl2.
  induction H1 as [|v t l1 dl1 Hv _ IH]; intros l2 dl2 H2;
    destruct H2 as [|w u l2 dl2 Hw H2]; simpl; try done.
  rewrite (eq_spec _ _ _ _ Hv Hw). destruct (data_eq t u); simpl; [|done].
  by apply IH.
Qed.

Lemma items_eq_spec d1 dd1 d2 dd2 :
  items_rel R d1 dd1 -> items_rel R d2 dd2 ->
  items_eq eq d1 d2 = Some (items_eqb data_eq dd1 dd2).
Proof.
  intros H1 H2.
  induction H1 as [|[k v] [k' t] d1 dd1 [Hk Hv] _ IH]; simpl in *; [done|].
  subst k'. pose proof (items_rel_dict_get _ _ _ k H2) as Hg.
  destruct (dict_get k d2) as [w|], (dict_get k dd2) as [u|]; try done.
  rewrite (eq_spec _ _ _ _ Hv Hg). destruct (data_eq t u); simpl; done.
Qed.

Lemma py_in_spec z tz l dl :
  R z tz -> Forall2 R l dl -> py_in eq z l = Some (data_in tz dl).
Proof.
  intros Hz. induction 1 as [|e te l dl He _ IH]; simpl; [done|].
  rewrite (eq_spec _ _ _ _ He Hz). destruct (data_eq te tz); simpl; done.
Qed.

Lemma not_present_spec xs dxs ys dys :
  Forall2 R xs dxs -> Forall2 R ys dys ->
  exists kept, not_present eq xs ys = Some kept /\
               Forall2 R kept (data_not_present dxs dys).
Proof.
  intros Hx Hy. induction Hx as [|z tz xs dxs Hz _ (kept & Hk & IH)]; simpl.
  - exists []. by split.
  - rewrite (py_in_spec _ _ _ _ Hz Hy), Hk. unfold data_not_present. simpl.
    destruct (data_in tz dys) eqn:E.
    + rewrite filter_cons_False by (by rewrite E). eauto.
    + rewrite filter_cons_True by done. eexists; split; [done|].
      by constructor.
Qed.
End EqSpec.

(** ** Facts about snapshots *)

Lemma dict_get_NoDup {A} k (v : A) items :
  NoDup (keys items) -> (k, v) ∈ items -> dict_get k items = Some v.
Proof.
  unfold keys. induction items as [|[k' w] rest IH]; simpl.
  - by intros _ ?%elem_of_nil.
  - rewrite ?fmap_cons, NoDup_cons. simpl. intros [Hn Hnd] Hin.
    apply elem_of_cons in Hin as [[= -> ->]|Hin].
    + by rewrite String.eqb_refl.
    + destruct (String.eqb_spec k k') as [->|]; [|by apply IH].
      destruct Hn. apply list_elem_of_fmap. by exists (k', v).
Qed.

Lemma dict_get_elem_of {A} k (v : A) items :
  dict_get k items = Some v -> (k, v) ∈ items.
Proof.
  induction items as [|[k' w] rest IH]; simpl; [done|].
  destruct (String.eqb_spec k k') as [->|].
  - intros [= ->]. by left.
  - intros H. right. by apply IH.
Qed.

Lemma items_eqb_true {A B} (eq : A -> B -> bool) d1 d2 :
  (forall k t, (k, t) ∈ d1 ->
     exists u, dict_get k d2 = Some u /\ eq t u = true) ->
  items_eqb eq d1 d2 = true.
Proof.
  induction d1 as [|[k t] rest IH]; intros H; simpl; [done|].
  destruct (H k t) as (u & -> & ->); [by left|]. simpl.
  apply IH. intros k' t' Hin. apply H. by right.
Qed.

Lemma items_eqb_keys {A B} (eq : A -> B -> bool) d1 d2 k :
  items_eqb eq d1 d2 = true -> k ∈ keys d1 -> k ∈ keys d2.
Proof.
  unfold keys at 1. induction d1 as [|[k' t] rest IH]; simpl.
  - by intros _ ?%elem_of_nil.
  - destruct (dict_get k' d2) as [u|] eqn:E; [|done].
    intros [_ Hr]%andb_true_iff [->|Hin]%elem_of_cons.
    + by eapply dict_get_Some_keys.
    + by apply IH.
Qed.

Lemma seq_eqb_refl {A} (eq : A -> A -> bool) l :
  Forall (fun t => eq t t = true) l -> seq_eqb eq l l = true.
Proof. induction 1 as [|t l Ht _ IH]; simpl; [done|]. by rewrite Ht, IH. Qed.

(** A dictionary snapshot has unique keys. *)
Lemma read_with_NoDup look n v dd :
  read_with look n v = Some (DDict dd) -> NoDup (keys dd).
Proof.
  intros (? & items & ? & _ & _ & _ & Hnd & Hr)%read_with_DDict.
  by rewrite <- (items_rel_keys _ _ _ Hr).
Qed.

(** A snapshot is equal to itself. *)
Lemma read_with_data_eq_refl look n v t :
  read_with look n v = Some t -> data_eq t t = true.
Proof.
  revert v t. induction n as [|m IH]; intros v t H.
  - destruct v; simpl in H; simplify_eq; simpl;
      auto using Z.eqb_refl, String.eqb_refl, Bool.eqb_reflx.
  - destruct v as [| | | |a]; try (simpl in H; simplify_eq; simpl;
      by auto using Z.eqb_refl, String.eqb_refl, Bool.eqb_reflx).
    pose proof H as H0.
    destruct (read_with_ref _ _ _ _ H) as [[dl ->]|[dd ->]].
    + apply read_with_DList in H as (? & elems & ? & _ & [= <-] & _ & H).
      rewrite data_eq_DList, Nat.eqb_refl. simpl. apply seq_eqb_refl.
      clear H0. induction H; constructor; eauto.
    + pose proof (read_with_NoDup _ _ _ _ H0) as Hnd.
      apply read_with_DDict in H as (? & items & ? & _ & [= <-] & _ & _ & H).
      rewrite data_eq_DDict, Nat.eqb_refl. simpl. apply items_eqb_true.
      intros k t Hin. exists t. split; [by apply dict_get_NoDup|].
      clear -H Hin IH. induction H as [|[k1 v1] [k2 t2] ? ? [_ Hv]];
        [by apply elem_of_nil in Hin|].
      apply elem_of_cons in Hin as [[= -> ->]|Hin]; eauto.
Qed.

(** Dictionaries with the same entries are equal, whatever their order. *)
Lemma data_eq_same_entries d1 d2 :
  NoDup (keys d1) -> NoDup (keys d2) ->
  (forall k, dict_get k d1 = dict_get k d2) ->
  (forall k v, dict_get k d1 = Some v -> data_eq v v = true) ->
  data_eq (DDict d1) (DDict d2) = true.
Proof.
  intros Hnd1 Hnd2 Hsame Hrefl. rewrite data_eq_DDict.
  assert (length d1 = length d2) as ->.
  { unfold keys in *. rewrite <- (length_fmap fst d1), <- (length_fmap fst d2).
    apply Permutation_length, NoDup_Permutation; [done..|].
    intros k. split; intros Hk.
    - apply dict_get_is_Some in Hk as [v Hv]. rewrite Hsame in Hv.
      by eapply dict_get_Some_keys.
    - apply dict_get_is_Some in Hk as [v Hv]. rewrite <- Hsame in Hv.
      by eapply dict_get_Some_keys. }
  rewrite Nat.eqb_refl. simpl. apply items_eqb_true.
  intros k t Hin. apply dict_get_NoDup in Hin; [|done].
  exists t. split; [by rewrite <- Hsame | by eapply Hrefl].
Qed.

Lemma identical_or_reads (eq : val -> val -> option bool) look n v w t u :
  read_with look n v = Some t -> read_with look n w = Some u ->
  eq v w = Some (data_eq t u) ->
  identical_or eq v w = Some (data_eq t u).
Proof.
  intros Hv Hw Heq. unfold identical_or, same_object.
  destruct v as [|bv|zv|sv|a], w as [|bw|zw|sw|b]; try done.
  destruct (Nat.eqb_spec a b) as [->|]; [|done].
  rewrite Hv in Hw. injection Hw as <-.
  by rewrite (read_with_data_eq_refl _ _ _ _ Hv).
Qed.

Lemma py_eq_reads n fuel look (h : heap) v w t u :
  n <= fuel -> sub look (fun a => h !! a) ->
  read_with look n v = Some t -> read_with look n w = Some u ->
  py_eq fuel h v w = Some (data_eq t u).
Proof.
  intros Hle Hsub. revert fuel Hle v w t u.
  induction n as [|m IH]; intros fuel Hle v w t u Hv Hw.
  - destruct fuel, v, w; simpl in *; by simplify_eq.
  - destruct fuel as [|f]; [lia|]. assert (m <= f) as Hmf by lia.
    destruct v as [|bv|zv|sv|a], w as [|bw|zw|sw|b];
      try (simpl in *; by simplify_eq);
      try (destruct (read_with_ref _ _ _ _ Hv) as [[? ->]|[? ->]];
           simpl in *; by simplify_eq);
      try (destruct (read_with_ref _ _ _ _ Hw) as [[? ->]|[? ->]];
           simpl in *; by simplify_eq).
    destruct (read_with_ref _ _ _ _ Hv) as [[l1 ->]|[d1 ->]];
      destruct (read_with_ref _ _ _ _ Hw) as [[l2 ->]|[d2 ->]].
    + apply read_with_DList in Hv as (? & e1 & ? & [= <-] & [= <-] & Ha & H1).
      apply read_with_DList in Hw as (? & e2 & ? & [= <-] & [= <-] & Hb & H2).
      simpl. rewrite (Hsub _ _ Ha), (Hsub _ _ Hb). simpl.
      rewrite (Forall2_length _ _ _ H1), (Forall2_length _ _ _ H2).
      destruct (Nat.eqb (length l1) (length l2)); simpl; [|done].
      eapply seq_eq_spec; [|done..].
      intros v0 t0 w0 u0 Hv0 Hw0.
      eapply identical_or_reads; [exact Hv0|exact Hw0|]. by eapply IH.
    + apply read_with_DList in Hv as (? & e1 & ? & [= <-] & [= <-] & Ha & H1).
      apply read_with_DDict in Hw
        as (? & e2 & ? & [= <-] & [= <-] & Hb & _ & H2).
      simpl. by rewrite (Hsub _ _ Ha), (Hsub _ _ Hb).
    + apply read_with_DDict in Hv
        as (? & e1 & ? & [= <-] & [= <-] & Ha & _ & H1).
      apply read_with_DList in Hw as (? & e2 & ? & [= <-] & [= <-] & Hb & H2).
      simpl. by rewrite (Hsub _ _ Ha), (Hsub _ _ Hb).
    + apply read_with_DDict in Hv
        as (? & e1 & ? & [= <-] & [= <-] & Ha & _ & H1).
      apply read_with_DDict in Hw
        as (? & e2 & ? & [= <-] & [= <-] & Hb & _ & H2).
      rewrite data_eq_DDict.
      simpl. rewrite (Hsub _ _ Ha), (Hsub _ _ Hb). simpl.
      rewrite (items_rel_length _ _ _ H1), (items_rel_length _ _ _ H2).
      destruct (Nat.eqb (length d1) (length d2)); simpl; [|done].
      eapply items_eq_spec; [|done..].
      intros v0 t0 w0 u0 Hv0 Hw0.
      eapply identical_or_reads; [exact Hv0|exact Hw0|]. by eapply IH.
Qed.

(** ** The loop of [merge_hash] *)

Lemma reads_kind look n (h : heap) v t :
  sub look (fun a => h !! a) -> read_with look n v = Some t ->
  is_mapping h v = data_is_dict t /\ is_mutable_sequence h v = data_is_list t.
Proof.
  intros Hsub H. unfold is_mapping, is_mutable_sequence, get_dict, get_list.
  destruct v as [| | | |a].
  1-4: destruct n; simpl in H; by simplify_eq.
  destruct (read_with_ref _ _ _ _ H) as [[dl ->]|[dd ->]].
  - apply read_with_DList in H as (? & e & ? & [= <-] & _ & Ha & _).
    by rewrite (Hsub _ _ Ha).
  - apply read_with_DDict in H as (? & e & ? & [= <-] & _ & Ha & _).
    by rewrite (Hsub _ _ Ha).
Qed.

Lemma prefix_insert_ge (h H : heap) a o :
  h `prefix_of` H -> length h <= a -> h `prefix_of` <[a := o]> H.
Proof.
  intros [hx ->] Hle. rewrite insert_app_r_alt by done. by eexists.
Qed.

Lemma loop_inv_store L h m H Lc items acc (H2 : heap) Lc2 k v t :
  loop_inv L h m H Lc items acc ->
  H `prefix_of` H2 ->
  sub Lc Lc2 ->
  sub Lc2 (fun a => H2 !! a) ->
  (forall b, b < length H -> Lc2 b = Lc b) ->
  read_with Lc2 m v = Some t ->
  exists H',
    dict_setitem (VRef (length h)) k v H2 = (Return tt, H') /\
    loop_inv L h m H' Lc2 (dict_set k v items) (dict_set k t acc).
Proof.
  intros (Hpre & Hcopy & HL & HLc & Hnone & Hlow & Hnd & Hitems)
    Hpre2 Hsub2 Hsub2' Hlow2 Hv.
  pose proof (lookup_lt_Some _ _ _ Hcopy) as Hlt.
  pose proof (prefix_lookup_Some _ _ _ _ Hcopy Hpre2) as Hcopy2.
  pose proof (lookup_lt_Some _ _ _ Hcopy2) as Hlt2.
  assert (Lc2 (length h) = None) as Hnone2 by (by rewrite Hlow2).
  eexists. split.
  { unfold dict_setitem. by rewrite Hcopy2. }
  repeat split.
  - apply prefix_insert_ge; [by etrans|done].
  - by apply list_lookup_insert_eq.
  - by eapply sub_trans.
  - intros b o Hb. destruct (decide (b = length h)) as [->|Hne]; [congruence|].
    rewrite list_lookup_insert_ne by done. by apply Hsub2'.
  - done.
  - intros b Hb. rewrite Hlow2 by lia. by apply Hlow.
  - by apply NoDup_keys_dict_set.
  - apply items_rel_dict_set; [|done].
    eapply items_rel_impl; [done|]. intros ? ?; by apply read_with_sub.
Qed.

Lemma loop_inv_set L h m H Lc items acc k v t :
  loop_inv L h m H Lc items acc ->
  read_with Lc m v = Some t ->
  exists H',
    dict_setitem (VRef (length h)) k v H = (Return tt, H') /\
    loop_inv L h m H' Lc (dict_set k v items) (dict_set k t acc).
Proof.
  intros Hinv Hv. eapply loop_inv_store; eauto using sub_refl.
  apply Hinv.
Qed.

(** Allocating a list and storing it under [k]. *)
Lemma loop_inv_new_list L h m H Lc items acc k elems dl :
  loop_inv L h (S m) H Lc items acc ->
  Forall2 (fun v t => read_with Lc m v = Some t) elems dl ->
  exists H' Lc',
    (let* r := alloc (OList elems) in
     dict_setitem (VRef (length h)) k r) H = (Return tt, H') /\
    loop_inv L h (S m) H' Lc' (dict_set k (VRef (length H)) items)
      (dict_set k (DList dl) acc).
Proof.
  intros Hinv Helems.
  pose proof Hinv as (_ & _ & _ & HLc & _).
  pose proof (sub_fresh _ _ (length H) HLc (le_n _)) as Hfresh.
  set (Lc' := with_obj Lc (length H) (OList elems)).
  assert (sub Lc Lc') as Hsub by (by apply sub_with_obj).
  destruct (loop_inv_store _ _ _ _ _ _ _ (H ++ [OList elems]) Lc' k
              (VRef (length H)) (DList dl) Hinv) as (H' & Hset & Hinv').
  - by apply prefix_app_r.
  - done.
  - intros b o. unfold Lc', with_obj. destruct (decide (b = length H)) as [->|].
    + intros [= <-]. by rewrite list_lookup_middle.
    + intros Hb. apply lookup_app_l_Some. by apply HLc.
  - intros b Hb. unfold Lc', with_obj. rewrite decide_False by lia. done.
  - eapply read_with_list.
    + unfold Lc', with_obj. by rewrite decide_True.
    + eapply Forall2_impl; [done|]. intros ? ?; by apply read_with_sub.
  - exists H', Lc'. split; [|done]. unfold bind, alloc. exact Hset.
Qed.

Lemma bind_read_list {B} (k : list val -> M B) (H : heap) a elems :
  H !! a = Some (OList elems) -> bind (read_list (VRef a)) k H = k elems H.
Proof. intros Ha. unfold bind, read_list, get_list. by rewrite Ha. Qed.

Lemma bind_read_dict {B} (k : list (string * val) -> M B) (H : heap) a items :
  H !! a = Some (ODict items) -> bind (read_dict (VRef a)) k H = k items H.
Proof. intros Ha. unfold bind, read_dict, get_dict. by rewrite Ha. Qed.

Lemma bind_or_recursion_error {A B} (f : heap -> option A) (k : A -> M B) (H : heap) a :
  f H = Some a -> bind (fun h => or_recursion_error (f h) h) k H = k a H.
Proof. intros Hf. unfold bind, or_recursion_error. by rewrite Hf. Qed.

Lemma merge_lists_spec L h m H Lc items acc fuel lm k xv yv dxs dys :
  loop_inv L h m H Lc items acc -> m <= fuel ->
  read_with Lc m xv = Some (DList dxs) ->
  read_with Lc m yv = Some (DList dys) ->
  exists H' Lc' items',
    merge_lists fuel lm (VRef (length h)) k xv yv H = (Return tt, H') /\
    loop_inv L h m H' Lc' items' (merge_lists_data lm k dxs dys acc).
Proof.
  intros Hinv Hfuel Hx Hy.
  pose proof Hinv as (_ & _ & _ & HLc & _).
  pose proof Hx as (ax & xs & m' & -> & -> & Hax & Hxs)%read_with_DList.
  pose proof Hy as (ay & ys & ? & -> & [= <-] & Hay & Hys)%read_with_DList.
  pose proof (HLc _ _ Hax) as Hax'. pose proof (HLc _ _ Hay) as Hay'.
  simpl in Hax', Hay'.
  assert (exists kept,
            not_present (identical_or (py_eq fuel H)) xs ys = Some kept /\
            Forall2 (fun v t => read_with Lc m' v = Some t) kept
              (data_not_present dxs dys)) as (kept & Hkept & Hkept').
  { eapply not_present_spec; [|done..].
    intros v t w u Hv Hw. eapply identical_or_reads; [exact Hv|exact Hw|].
    eapply py_eq_reads; [|done..]. lia. }
  unfold merge_lists, merge_lists_data.
  destruct (String.eqb lm "replace").
  { destruct (loop_inv_set _ _ _ _ _ _ _ k _ _ Hinv Hy) as (H' & ? & ?).
    by exists H', Lc, (dict_set k (VRef ay) items). }
  destruct (String.eqb lm "append").
  { rewrite (bind_read_list _ _ _ _ Hax'), (bind_read_list _ _ _ _ Hay').
    destruct (loop_inv_new_list _ _ _ _ _ _ _ k (xs ++ ys) (dxs ++ dys) Hinv)
      as (H' & Lc' & ? & ?); [by apply Forall2_app|]. eauto. }
  destruct (String.eqb lm "prepend").
  { rewrite (bind_read_list _ _ _ _ Hax'), (bind_read_list _ _ _ _ Hay').
    destruct (loop_inv_new_list _ _ _ _ _ _ _ k (ys ++ xs) (dys ++ dxs) Hinv)
      as (H' & Lc' & ? & ?); [by apply Forall2_app|]. eauto. }
  destruct (String.eqb lm "append_rp").
  { rewrite (bind_read_list _ _ _ _ Hax'), (bind_read_list _ _ _ _ Hay').
    rewrite (bind_or_recursion_error (fun h => not_present (identical_or (py_eq fuel h)) xs ys) _ _ _ Hkept).
    destruct (loop_inv_new_list _ _ _ _ _ _ _ k (kept ++ ys)
                (data_not_present dxs dys ++ dys) Hinv)
      as (H' & Lc' & ? & ?); [by apply Forall2_app|]. eauto. }
  destruct (String.eqb lm "prepend_rp").
  { rewrite (bind_read_list _ _ _ _ Hax'), (bind_read_list _ _ _ _ Hay').
    rewrite (bind_or_recursion_error (fun h => not_present (identical_or (py_eq fuel h)) xs ys) _ _ _ Hkept).
    destruct (loop_inv_new_list _ _ _ _ _ _ _ k (ys ++ kept)
                (dys ++ data_not_present dxs dys) Hinv)
      as (H' & Lc' & ? & ?); [by apply Forall2_app|]. eauto. }
  by exists H, Lc, items.
Qed.

Lemma merge_item_spec self fuel rec lm L h m H Lc items acc k yv ty :
  merges_at self m rec lm -> m <= fuel ->
  loop_inv L h m H Lc items acc ->
  read_with L m yv = Some ty ->
  exists H' Lc' items',
    merge_item self fuel rec lm (VRef (length h)) (k, yv) H = (Return tt, H') /\
    loop_inv L h m H' Lc' items'
      (merge_item_data (merge_data rec lm) rec lm acc (k, ty)).
Proof.
  intros Hself Hfuel Hinv Hy0.
  pose proof Hinv as (_ & Hcopy & HL & HLc & _ & _ & _ & Hitems).
  pose proof (read_with_sub _ _ _ _ _ HL Hy0) as Hy.
  unfold merge_item, merge_item_data. simpl.
  rewrite (bind_read_dict _ _ _ _ Hcopy).
  pose proof (items_rel_dict_get _ _ _ k Hitems) as Hg. simpl in Hg.
  destruct (dict_get k items) as [xv|], (dict_get k acc) as [tx|]; try done.
  2:{ destruct (loop_inv_set _ _ _ _ _ _ _ k _ _ Hinv Hy) as (H' & ? & ?).
      eauto. }
  destruct (reads_kind _ _ _ _ _ HLc Hg) as [Hxm Hxl].
  destruct (reads_kind _ _ _ _ _ HLc Hy) as [Hym Hyl].
  unfold bind at 1, isinstance_MutableMapping at 1.
  unfold bind at 1, isinstance_MutableMapping at 1.
  rewrite Hxm, Hym.
  assert (exists H' Lc' items',
            dict_setitem (VRef (length h)) k yv H = (Return tt, H') /\
            loop_inv L h m H' Lc' items' (dict_set k ty acc)) as Hset.
  { destruct (loop_inv_set _ _ _ _ _ _ _ k _ _ Hinv Hy) as (H' & ? & ?).
    eauto. }
  destruct tx as [| | | |dxs|dx], ty as [| | | |dys|dy]; simpl;
    try (unfold bind at 1, isinstance_MutableSequence at 1;
         unfold bind at 1, isinstance_MutableSequence at 1;
         rewrite Hxl, Hyl; simpl; exact Hset).
  - unfold bind at 1, isinstance_MutableSequence at 1.
    unfold bind at 1, isinstance_MutableSequence at 1.
    rewrite Hxl, Hyl; simpl. by eapply merge_lists_spec.
  - destruct rec; [|exact Hset].
    destruct (Hself Lc H xv yv dx dy HLc Hg Hy)
      as (H1 & L1 & Hrun & Hpre & Hsub & Hsub' & Hlow & Hr).
    unfold bind at 1. rewrite Hrun.
    destruct (loop_inv_store _ _ _ _ _ _ _ H1 L1 k (VRef (length H)) _ Hinv
                Hpre Hsub Hsub' Hlow Hr) as (H' & ? & ?).
    eauto.
Qed.

Lemma merge_loop_spec self fuel rec lm L h m :
  merges_at self m rec lm -> m <= fuel ->
  forall y_items dy,
    items_rel (fun v t => read_with L m v = Some t) y_items dy ->
    forall H Lc items acc,
      loop_inv L h m H Lc items acc ->
      exists H' Lc' items',
        for_each (merge_item self fuel rec lm (VRef (length h))) y_items H
          = (Return tt, H') /\
        loop_inv L h m H' Lc' items'
          (fold_left (merge_item_data (merge_data rec lm) rec lm) dy acc).
Proof.
  intros Hself Hfuel y_items dy Hy.
  induction Hy as [|[k yv] [k' ty] y_items dy [Hk Hv] _ IH];
    intros H Lc items acc Hinv; cbn [for_each fold_left].
  - by exists H, Lc, items.
  - simpl in Hk, Hv. subst k'.
    destruct (merge_item_spec _ _ _ _ _ _ _ _ _ _ _ k _ _ Hself Hfuel Hinv Hv)
      as (H1 & Lc1 & items1 & Hrun & Hinv1).
    unfold bind at 1. rewrite Hrun. by eapply IH.
Qed.

(** ** [merge_hash] computes [merge_data] and only extends the store *)

Lemma merge_data_DDict rec lm dx dy :
  merge_data rec lm (DDict dx) (DDict dy) =
    if Nat.eqb (length dx) 0 || data_eq (DDict dx) (DDict dy) then DDict dy
    else if negb rec && String.eqb lm "replace" then DDict (dict_update dx dy)
    else DDict (fold_left (merge_item_data (merge_data rec lm) rec lm) dy dx).
Proof. reflexivity. Qed.

Section MergeFacts.
Variable dumps : heap -> val -> option string.
Variable to_native : heap -> val -> string.

Lemma merge_hash_unfold fuel x y recursive list_merge :
  merge_hash dumps to_native fuel x y recursive list_merge =
    if negb (str_in list_merge list_merge_values) then
      raise (AnsibleError policy_msg)
    else
      _validate_mutable_mappings dumps to_native x y;;
      let* same := (fun h =>
        or_recursion_error (match py_eq_empty_dict fuel h x with
                 | Some false => py_eq fuel h x y
                 | r => r
                 end) h) in
      if same then dict_copy y
      else
        let* x := dict_copy x in
        if negb recursive && String.eqb list_merge "replace" then
          dict_update_in_place x y;;
          ret x
        else
          let* y_items := read_dict y in
          for_each
            (merge_item (self_call dumps to_native fuel recursive list_merge)
               fuel recursive list_merge x)
            y_items;;
          ret x.
Proof. destruct fuel; reflexivity. Qed.

Lemma merge_hash_reads n : forall fuel rec lm,
  n <= fuel -> str_in lm list_merge_values = true ->
  merges_at (fun x y => merge_hash dumps to_native fuel x y rec lm) n rec lm.
Proof.
  induction n as [|m IH]; intros fuel rec lm Hfuel Hpol Lc H x y dx dy
    HLc Hx Hy.
  { apply read_with_DDict in Hx as (? & ? & ? & _ & [=] & _). }
  destruct fuel as [|f]; [lia|]. assert (m <= f) as Hmf by lia.
  pose proof Hx as (ax & xi & ? & -> & [= <-] & Hax & Hndx & Hxi)%read_with_DDict.
  pose proof Hy as (ay & yi & ? & -> & [= <-] & Hay & Hndy & Hyi)%read_with_DDict.
  pose proof (HLc _ _ Hax) as Hax'. pose proof (HLc _ _ Hay) as Hay'.
  simpl in Hax', Hay'.
  pose proof (sub_fresh _ _ (length H) HLc (le_n _)) as Hfresh.
  rewrite merge_hash_unfold, Hpol. cbn [negb].
  unfold bind at 1, _validate_mutable_mappings, is_mapping, get_dict.
  rewrite Hax', Hay'. cbn [andb negb].
  rewrite (bind_or_recursion_error
             (fun h => match py_eq_empty_dict (S f) h (VRef ax) with
                       | Some false => py_eq (S f) h (VRef ax) (VRef ay)
                       | r => r
                       end) _ _
             (Nat.eqb (length dx) 0 || data_eq (DDict dx) (DDict dy))).
  2:{ unfold py_eq_empty_dict. rewrite Hax'. unfold obj_eq.
      rewrite <- (items_rel_length _ _ _ Hxi). cbn [length].
      destruct xi as [|? ?]; [done|]. cbn [length Nat.eqb orb].
      eapply py_eq_reads; [|done..]. lia. }
  rewrite merge_data_DDict.
  destruct (Nat.eqb (length dx) 0 || data_eq (DDict dx) (DDict dy)).
  { (* y.copy() *)
    unfold dict_copy. rewrite (bind_read_dict _ _ _ _ Hay'). unfold alloc.
    exists (H ++ [ODict yi]), (with_obj Lc (length H) (ODict yi)).
    assert (sub Lc (with_obj Lc (length H) (ODict yi))) as Hsub
      by (by apply sub_with_obj).
    split_and!; [done|by apply prefix_app_r|done| | |].
    - intros b o. unfold with_obj. destruct (decide (b = length H)) as [->|].
      + intros [= <-]. by rewrite list_lookup_middle.
      + intros Hb. apply lookup_app_l_Some. by apply HLc.
    - intros b Hb. unfold with_obj. by rewrite decide_False by lia.
    - eapply read_with_dict; [|done|].
      + unfold with_obj. by rewrite decide_True.
      + eapply items_rel_impl; [done|]. intros ? ?; by apply read_with_sub. }
  unfold dict_copy at 1. unfold bind at 1.
  rewrite (bind_read_dict _ _ _ _ Hax'). unfold alloc at 1.
  assert (loop_inv Lc H m (H ++ [ODict xi]) Lc xi dx) as Hinv.
  { split_and!; [by apply prefix_app_r|by rewrite list_lookup_middle
                |apply sub_refl|by apply sub_lookup_app|done..]. }
  assert (forall H' Lc' items' acc,
            loop_inv Lc H m H' Lc' items' acc ->
            exists L',
              H `prefix_of` H' /\ sub Lc L' /\ sub L' (fun a => H' !! a) /\
              (forall b, b < length H -> L' b = Lc b) /\
              read_with L' (S m) (VRef (length H)) = Some (DDict acc))
    as Hdone.
  { intros H' Lc' items' acc
      (Hpre & Hcopy & HL & HLc' & Hnone & Hlow & Hnd & Hitems).
    exists (with_obj Lc' (length H) (ODict items')).
    assert (sub Lc' (with_obj Lc' (length H) (ODict items'))) as Hsub
      by (by apply sub_with_obj).
    split_and!; [done|by eapply sub_trans| | |].
    - intros b o. unfold with_obj. destruct (decide (b = length H)) as [->|].
      + by intros [= <-].
      + apply HLc'.
    - intros b Hb. unfold with_obj. rewrite decide_False by lia.
      by apply Hlow.
    - eapply read_with_dict; [|done|].
      + unfold with_obj. by rewrite decide_True.
      + eapply items_rel_impl; [done|]. intros ? ?; by apply read_with_sub. }
  destruct (negb rec && String.eqb lm "replace").
  { (* x.update(y) *)
    destruct Hinv as (Hpre & Hcopy & HL & HLc' & Hnone & Hlow & Hnd & Hitems).
    unfold bind at 1, dict_update_in_place.
    rewrite (bind_read_dict _ _ _ _ (HLc' _ _ Hay)). rewrite Hcopy.
    unfold ret.
    destruct (Hdone (<[length H := ODict (dict_update xi yi)]>
                       (H ++ [ODict xi])) Lc
                (dict_update xi yi) (dict_update dx dy)) as (L' & ?).
    { split_and!; [by apply prefix_insert_ge
                  |apply list_lookup_insert_eq; by eapply lookup_lt_Some
                  |done| |done|done| |].
      - intros b o Hb. destruct (decide (b = length H)) as [->|]; [congruence|].
        rewrite list_lookup_insert_ne by done. by apply HLc'.
      - unfold dict_update. clear -Hnd. revert xi Hnd.
        induction yi as [|[k v] yi IHy]; intros xi Hnd; simpl; [done|].
        by apply IHy, NoDup_keys_dict_set.
      - by apply items_rel_dict_update. }
    eauto. }
  rewrite (bind_read_dict _ _ _ _ (proj1 (proj2 (proj2 (proj2 Hinv))) _ _ Hay)).
  destruct (merge_loop_spec (self_call dumps to_native (S f) rec lm) (S f) rec lm Lc H m
              (IH f rec lm Hmf Hpol) ltac:(lia) yi dy Hyi _ _ _ _ Hinv)
    as (H' & Lc' & items' & Hrun & Hinv').
  unfold bind at 1. rewrite Hrun. unfold ret.
  destruct (Hdone _ _ _ _ Hinv') as (L' & ?). eauto.
Qed.
End MergeFacts.

(** ** The keys of a merge *)

Lemma keys_cons {A} k (v : A) items : keys ((k, v) :: items) = k :: keys items.
Proof. reflexivity. Qed.

Lemma elem_of_keys_nil {A} k : k ∈ keys (@nil (string * A)) <-> False.
Proof. apply elem_of_nil. Qed.

Lemma elem_of_keys_dict_update {A} (d other : list (string * A)) k :
  k ∈ keys (dict_update d other) <-> k ∈ keys d \/ k ∈ keys other.
Proof.
  unfold dict_update. revert d.
  induction other as [|[k' v] other IH]; intros d; cbn [fold_left fst snd].
  - rewrite elem_of_keys_nil. tauto.
  - rewrite IH, elem_of_keys_dict_set, keys_cons, elem_of_cons. tauto.
Qed.

Lemma NoDup_keys_dict_update {A} (d other : list (string * A)) :
  NoDup (keys d) -> NoDup (keys (dict_update d other)).
Proof.
  unfold dict_update. revert d.
  induction other as [|[k v] other IH]; intros d Hnd; simpl; [done|].
  by apply IH, NoDup_keys_dict_set.
Qed.

Lemma merge_lists_data_keys lm k xs ys acc k' :
  k ∈ keys acc ->
  k' ∈ keys (merge_lists_data lm k xs ys acc) <-> k' ∈ keys acc.
Proof.
  intros Hk. unfold merge_lists_data.
  repeat (destruct (String.eqb lm _);
          [rewrite keys_dict_set_present by done; tauto|]).
  tauto.
Qed.

Lemma merge_lists_data_NoDup lm k xs ys acc :
  NoDup (keys acc) -> NoDup (keys (merge_lists_data lm k xs ys acc)).
Proof.
  intros Hnd. unfold merge_lists_data.
  repeat (destruct (String.eqb lm _); [by apply NoDup_keys_dict_set|]).
  done.
Qed.

Lemma merge_item_data_keys self rec lm acc kv k' :
  k' ∈ keys (merge_item_data self rec lm acc kv) <->
  k' = kv.1 \/ k' ∈ keys acc.
Proof.
  unfold merge_item_data.
  destruct (dict_get kv.1 acc) as [xv|] eqn:E;
    [|by apply elem_of_keys_dict_set].
  apply dict_get_Some_keys in E.
  assert (k' ∈ keys acc <-> k' = kv.1 \/ k' ∈ keys acc) as Hin
    by (split; [tauto | intros [->|]; done]).
  destruct xv, kv.2; try destruct rec;
    first [ apply elem_of_keys_dict_set
          | rewrite merge_lists_data_keys by done; exact Hin ].
Qed.

Lemma merge_item_data_NoDup self rec lm acc kv :
  NoDup (keys acc) -> NoDup (keys (merge_item_data self rec lm acc kv)).
Proof.
  intros Hnd. unfold merge_item_data.
  destruct (dict_get kv.1 acc) as [xv|]; [|by apply NoDup_keys_dict_set].
  destruct xv, kv.2; try destruct rec;
    first [ by apply NoDup_keys_dict_set | by apply merge_lists_data_NoDup ].
Qed.

Lemma merge_loop_data_keys self rec lm dy acc k :
  k ∈ keys (fold_left (merge_item_data self rec lm) dy acc) <->
  k ∈ keys acc \/ k ∈ keys dy.
Proof.
  revert acc. induction dy as [|[k' t] dy IH]; intros acc; cbn [fold_left].
  - rewrite elem_of_keys_nil. tauto.
  - rewrite IH, merge_item_data_keys, keys_cons, elem_of_cons. simpl. tauto.
Qed.

Lemma merge_data_keys rec lm dx dy :
  exists dr,
    merge_data rec lm (DDict dx) (DDict dy) = DDict dr /\
    forall k, k ∈ keys dr <-> k ∈ keys dx \/ k ∈ keys dy.
Proof.
  rewrite merge_data_DDict.
  destruct (Nat.eqb (length dx) 0 || data_eq (DDict dx) (DDict dy)) eqn:E.
  - exists dy. split; [done|]. intros k. split; [tauto|].
    intros [Hk|Hk]; [|done].
    apply orb_true_iff in E as [E|E].
    + destruct dx; [by apply elem_of_nil in Hk | done].
    + rewrite data_eq_DDict in E. apply andb_true_iff in E as [_ E].
      by eapply items_eqb_keys.
  - destruct (negb rec && String.eqb lm "replace").
    + eexists. split; [done|]. apply elem_of_keys_dict_update.
    + eexists. split; [done|]. apply merge_loop_data_keys.
Qed.

(** ** [merge_hash] on valid mappings *)

Lemma snapshot_app n (h h2 : heap) v t :
  snapshot n h v = Some t -> snapshot n (h ++ h2) v = Some t.
Proof.
  apply read_with_sub. intros a o Ha. by apply lookup_app_l_Some.
Qed.

Lemma snapshot_le n n' (h : heap) v t :
  n <= n' -> snapshot n h v = Some t -> snapshot n' h v = Some t.
Proof. apply read_with_le. Qed.

Section MergeClaims.
Variable dumps : heap -> val -> option string.
Variable to_native : heap -> val -> string.

(** On two valid mappings and a recognised policy, [merge_hash] returns
    a new object, extends the store, and the new object reads as
    [merge_data] of the two snapshots. *)
Lemma merge_hash_snapshot n fuel (h : heap) x y dx dy rec lm :
  n <= fuel -> str_in lm list_merge_values = true ->
  snapshot n h x = Some (DDict dx) -> snapshot n h y = Some (DDict dy) ->
  exists h2,
    merge_hash dumps to_native fuel x y rec lm h
      = (Return (VRef (length h)), h ++ h2) /\
    snapshot n (h ++ h2) (VRef (length h))
      = Some (merge_data rec lm (DDict dx) (DDict dy)).
Proof.
  intros Hfuel Hpol Hx Hy.
  destruct (merge_hash_reads dumps to_native n fuel rec lm Hfuel Hpol
              (fun a => h !! a) h x y dx dy (sub_refl _) Hx Hy)
    as (H' & L' & Hrun & [h2 ->] & _ & Hsub & _ & Hr).
  exists h2. split; [done|]. by eapply read_with_sub.
Qed.

(** C5 (non-mutation).  On valid mappings [x] and [y] and any recognised
    policy, [merge_hash] returns, the store after the call is the store
    before it followed by new objects only, and [x] and [y] read as the
    same snapshots as before, at every depth. *)
Theorem merge_hash_inputs_unchanged n fuel (h : heap) x y dx dy
    recursive list_merge :
  n <= fuel -> str_in list_merge list_merge_values = true ->
  snapshot n h x = Some (DDict dx) -> snapshot n h y = Some (DDict dy) ->
  exists r h2,
    merge_hash dumps to_native fuel x y recursive list_merge h
      = (Return r, h ++ h2) /\
    snapshot n (h ++ h2) x = Some (DDict dx) /\
    snapshot n (h ++ h2) y = Some (DDict dy).
Proof.
  intros Hfuel Hpol Hx Hy.
  destruct (merge_hash_snapshot n fuel h x y dx dy recursive list_merge)
    as (h2 & Hrun & _); [done..|].
  exists (VRef (length h)), h2. split_and!; [done|by apply snapshot_app..].
Qed.

(** C8 (idempotence, identity via copy).  [merge_hash(x, x) == x] for a
    valid mapping [x]; and for an empty mapping [e] and a valid mapping
    [y], [merge_hash(e, y) == y] while the result is another object
    than [y]. *)
Theorem merge_hash_idempotent_and_copy n fuel (h : heap) recursive list_merge :
  n <= fuel -> str_in list_merge list_merge_values = true ->
  (forall x dx,
     snapshot n h x = Some (DDict dx) ->
     exists r h',
       merge_hash dumps to_native fuel x x recursive list_merge h
         = (Return r, h') /\
       py_eq fuel h' r x = Some true) /\
  (forall e y dy,
     snapshot n h e = Some (DDict []) ->
     snapshot n h y = Some (DDict dy) ->
     exists r h',
       merge_hash dumps to_native fuel e y recursive list_merge h
         = (Return r, h') /\
       py_eq fuel h' r y = Some true /\
       r <> y).
Proof.
  intros Hfuel Hpol. split.
  - intros x dx Hx.
    destruct (merge_hash_snapshot n fuel h x x dx dx recursive list_merge)
      as (h2 & Hrun & Hr); [done..|].
    exists (VRef (length h)), (h ++ h2). split; [done|].
    pose proof (read_with_data_eq_refl _ _ _ _ Hx) as Hrefl.
    rewrite merge_data_DDict, Hrefl, orb_true_r in Hr.
    rewrite <- Hrefl.
    eapply py_eq_reads; [exact Hfuel|apply sub_refl|exact Hr|].
    by apply snapshot_app.
  - intros e y dy He Hy.
    destruct (merge_hash_snapshot n fuel h e y [] dy recursive list_merge)
      as (h2 & Hrun & Hr); [done..|].
    exists (VRef (length h)), (h ++ h2). split; [done|]. split.
    + pose proof (read_with_data_eq_refl _ _ _ _ Hy) as Hrefl.
      rewrite merge_data_DDict in Hr. simpl in Hr.
      rewrite <- Hrefl.
      eapply py_eq_reads; [exact Hfuel|apply sub_refl|exact Hr|].
      by apply snapshot_app.
    + apply read_with_DDict in Hy as (ay & ? & ? & -> & _ & Hay & _).
      apply lookup_lt_Some in Hay. intros [= Heq]. lia.
Qed.

(** C9 (key set).  The keys of the result are exactly the keys of [x]
    together with the keys of [y]. *)
Theorem merge_hash_keys n fuel (h : heap) x y dx dy x_items y_items
    recursive list_merge :
  n <= fuel -> str_in list_merge list_merge_values = true ->
  snapshot n h x = Some (DDict dx) -> snapshot n h y = Some (DDict dy) ->
  get_dict h x = Some x_items -> get_dict h y = Some y_items ->
  exists r h' r_items,
    merge_hash dumps to_native fuel x y recursive list_merge h
      = (Return r, h') /\
    get_dict h' r = Some r_items /\
    forall k, k ∈ keys r_items <-> k ∈ keys x_items \/ k ∈ keys y_items.
Proof.
  intros Hfuel Hpol Hx Hy Hxi Hyi.
  destruct (merge_hash_snapshot n fuel h x y dx dy recursive list_merge)
    as (h2 & Hrun & Hr); [done..|].
  destruct (merge_data_keys recursive list_merge dx dy) as (dr & Hdr & Hkeys).
  rewrite Hdr in Hr.
  apply read_with_DDict in Hr as (? & ri & ? & [= <-] & _ & Hri & _ & Hrel).
  apply read_with_DDict in Hx as (ax & xi & ? & -> & _ & Hax & _ & Hxrel).
  apply read_with_DDict in Hy as (ay & yi & ? & -> & _ & Hay & _ & Hyrel).
  unfold get_dict in Hxi, Hyi. rewrite Hax in Hxi. rewrite Hay in Hyi.
  simplify_eq.
  exists (VRef (length h)), (h ++ h2), ri. split; [done|].
  split; [unfold get_dict; by rewrite Hri|].
  intros k. rewrite (items_rel_keys _ _ _ Hrel), (items_rel_keys _ _ _ Hxrel),
    (items_rel_keys _ _ _ Hyrel). apply Hkeys.
Qed.

(** C3 (list policies).  With [x = {'l': [1, 2, 3]}] and
    [y = {'l': [3, 4]}], the result maps ['l'] to the list the policy
    table gives, for each of the six policies. *)
Theorem merge_hash_list_policies (h : heap) x y recursive :
  snapshot 2 h x = Some (DDict [("l", DList [DInt 1; DInt 2; DInt 3])]) ->
  snapshot 2 h y = Some (DDict [("l", DList [DInt 3; DInt 4])]) ->
  merges_to dumps to_native 2 h x y recursive "replace"
    (DDict [("l", DList [DInt 3; DInt 4])]) /\
  merges_to dumps to_native 2 h x y recursive "keep"
    (DDict [("l", DList [DInt 1; DInt 2; DInt 3])]) /\
  merges_to dumps to_native 2 h x y recursive "append"
    (DDict [("l", DList [DInt 1; DInt 2; DInt 3; DInt 3; DInt 4])]) /\
  merges_to dumps to_native 2 h x y recursive "prepend"
    (DDict [("l", DList [DInt 3; DInt 4; DInt 1; DInt 2; DInt 3])]) /\
  merges_to dumps to_native 2 h x y recursive "append_rp"
    (DDict [("l", DList [DInt 1; DInt 2; DInt 3; DInt 4])]) /\
  merges_to dumps to_native 2 h x y recursive "prepend_rp"
    (DDict [("l", DList [DInt 3; DInt 4; DInt 1; DInt 2])]).
Proof.
  intros Hx Hy.
  assert (forall lm expected,
    str_in lm list_merge_values = true ->
    merge_data recursive lm
      (DDict [("l", DList [DInt 1; DInt 2; DInt 3])])
      (DDict [("l", DList [DInt 3; DInt 4])]) = expected ->
    merges_to dumps to_native 2 h x y recursive lm expected) as Hrun.
  { intros lm expected Hpol <-.
    destruct (merge_hash_snapshot 2 2 h x y _ _ recursive lm
                (le_n _) Hpol Hx Hy) as (h2 & Hrun & Hr).
    by eexists _, _. }
  split_and!; apply Hrun; by destruct recursive.
Qed.
End MergeClaims.

(** ** Errors *)

Lemma npe_bind {A B} (m : M A) (k : A -> M B) :
  no_policy_error m -> (forall a, no_policy_error (k a)) ->
  no_policy_error (bind m k).
Proof.
  intros Hm Hk h. unfold bind. specialize (Hm h).
  destruct (m h) as [[a|e] h']; simpl in *; [apply Hk|].
  intros [= ->]. by apply Hm.
Qed.

Lemma npe_ret {A} (a : A) : no_policy_error (ret a).
Proof. by intros h. Qed.

Lemma npe_read_dict v : no_policy_error (read_dict v).
Proof. intros h. unfold read_dict. by destruct (get_dict h v). Qed.

Lemma npe_read_list v : no_policy_error (read_list v).
Proof. intros h. unfold read_list. by destruct (get_list h v). Qed.

Lemma npe_alloc o : no_policy_error (alloc o).
Proof. by intros h. Qed.

Lemma npe_setitem d k v : no_policy_error (dict_setitem d k v).
Proof.
  intros h. unfold dict_setitem.
  destruct d as [| | | |a]; try done. by destruct (h !! a) as [[]|].
Qed.

Lemma npe_or_recursion_error {A} (f : heap -> option A) :
  no_policy_error (fun h => or_recursion_error (f h) h).
Proof. intros h. unfold or_recursion_error. by destruct (f h). Qed.

Lemma npe_isinstance_mapping v : no_policy_error (isinstance_MutableMapping v).
Proof. by intros h. Qed.

Lemma npe_isinstance_sequence v : no_policy_error (isinstance_MutableSequence v).
Proof. by intros h. Qed.

Lemma npe_for_each {A} (body : A -> M unit) l :
  (forall a, no_policy_error (body a)) -> no_policy_error (for_each body l).
Proof.
  intros Hb. induction l as [|a l IH]; simpl; [apply npe_ret|].
  apply npe_bind; [apply Hb | by intros _].
Qed.

Lemma npe_dict_copy d : no_policy_error (dict_copy d).
Proof.
  apply npe_bind; [apply npe_read_dict | intros; apply npe_alloc].
Qed.

Lemma npe_update d other : no_policy_error (dict_update_in_place d other).
Proof.
  apply npe_bind; [apply npe_read_dict|]. intros theirs h.
  destruct d as [| | | |a]; try done. by destruct (h !! a) as [[]|].
Qed.

Lemma npe_merge_lists fuel lm x key xv yv :
  no_policy_error (merge_lists fuel lm x key xv yv).
Proof.
  unfold merge_lists.
  repeat (destruct (String.eqb lm _);
    [repeat first [ apply npe_setitem | apply npe_read_list | apply npe_alloc
                  | apply npe_or_recursion_error | apply npe_bind; [|intros ?] ]|]).
  apply npe_ret.
Qed.

Lemma npe_merge_item self fuel rec lm x kv :
  (forall a b, no_policy_error (self a b)) ->
  no_policy_error (merge_item self fuel rec lm x kv).
Proof.
  intros Hself. unfold merge_item. destruct kv as [key y_value].
  apply npe_bind; [apply npe_read_dict|]. intros x_items.
  destruct (dict_get key x_items) as [x_value|]; [|apply npe_setitem].
  apply npe_bind; [apply npe_isinstance_mapping|]. intros xm.
  apply npe_bind; [apply npe_isinstance_mapping|]. intros ym.
  destruct (xm && ym).
  - destruct rec; [|apply npe_setitem].
    apply npe_bind; [apply Hself | intros; apply npe_setitem].
  - apply npe_bind; [apply npe_isinstance_sequence|]. intros xl.
    apply npe_bind; [apply npe_isinstance_sequence|]. intros yl.
    destruct (xl && yl); [apply npe_merge_lists | apply npe_setitem].
Qed.

Section ErrorClaims.
Variable dumps : heap -> val -> option string.
Variable to_native : heap -> val -> string.

Lemma npe_validate a b :
  no_policy_error (_validate_mutable_mappings dumps to_native a b).
Proof.
  intros h. unfold _validate_mutable_mappings.
  destruct (negb _); simpl; [|done].
  unfold mismatch_msg, policy_msg. simpl. discriminate.
Qed.

Lemma npe_merge_hash fuel : forall x y rec lm,
  str_in lm list_merge_values = true ->
  no_policy_error (merge_hash dumps to_native fuel x y rec lm).
Proof.
  induction fuel as [|f IH]; intros x y rec lm Hpol;
    rewrite merge_hash_unfold, Hpol; cbn [negb].
  all: apply npe_bind; [apply npe_validate|]; intros _.
  all: apply npe_bind; [apply npe_or_recursion_error|]; intros same.
  all: destruct same; [apply npe_dict_copy|].
  all: apply npe_bind; [apply npe_dict_copy|]; intros x'.
  all: destruct (negb rec && String.eqb lm "replace");
    [apply npe_bind; [apply npe_update | intros; apply npe_ret]|].
  all: apply npe_bind; [apply npe_read_dict|]; intros y_items.
  all: apply npe_bind; [|intros; apply npe_ret].
  all: apply npe_for_each; intros kv; apply npe_merge_item; intros a b.
  - by intros h.
  - by apply IH.
Qed.

(** C6 (invalid policy).  [merge_hash] raises the policy error exactly
    when [list_merge] is not one of the six recognised values, and then
    nothing else has happened: the store is the one it was given. *)
Theorem merge_hash_invalid_policy fuel x y recursive list_merge (h : heap) :
  ((merge_hash dumps to_native fuel x y recursive list_merge h).1
     = Raise (AnsibleError policy_msg)
   <-> list_merge ∉ list_merge_values) /\
  (list_merge ∉ list_merge_values ->
   merge_hash dumps to_native fuel x y recursive list_merge h
     = (Raise (AnsibleError policy_msg), h)).
Proof.
  assert (str_in list_merge list_merge_values = true
          <-> list_merge ∈ list_merge_values) as Hin.
  { unfold str_in. rewrite existsb_exists. split.
    - intros (s & Hs & ->%String.eqb_eq). by apply list_elem_of_In.
    - intros Hs. exists list_merge.
      split; [by apply list_elem_of_In | apply String.eqb_refl]. }
  assert (list_merge ∉ list_merge_values ->
          merge_hash dumps to_native fuel x y recursive list_merge h
            = (Raise (AnsibleError policy_msg), h)) as Hraise.
  { intros Hn. rewrite merge_hash_unfold.
    destruct (str_in list_merge list_merge_values) eqn:E; [|done].
    destruct Hn. by apply Hin. }
  split; [|done]. split.
  - intros Hr Hv. apply Hin in Hv.
    by apply (npe_merge_hash fuel x y recursive list_merge Hv h).
  - intros Hn. by rewrite Hraise.
Qed.

(** C7 (type mismatch).  With a recognised policy, a call of
    [merge_hash] whose [x] or [y] is not a mapping raises the type error
    and leaves the store alone; the message names the class of both
    values and carries the serialisation of both.  Every call makes this
    check, the calls the loop makes on nested mappings included
    ([self_call]). *)
Theorem merge_hash_type_mismatch fuel x y recursive list_merge (h : heap) :
  str_in list_merge list_merge_values = true ->
  is_mapping h x && is_mapping h y = false ->
  merge_hash dumps to_native fuel x y recursive list_merge h
    = (Raise (AnsibleError
         ("failed to combine variables, expected dicts but got a '"
            +:+ class_name h x +:+ "' and a '" +:+ class_name h y
            +:+ "': " +:+ nl +:+ serialize dumps to_native h x
            +:+ nl +:+ serialize dumps to_native h y)), h).
Proof.
  intros Hpol Hmap. rewrite merge_hash_unfold, Hpol. cbn [negb].
  unfold bind, _validate_mutable_mappings. by rewrite Hmap.
Qed.
End ErrorClaims.

(** ** The flattener *)

Lemma flatten_unfold fuel (h : heap) mylist levels :
  flatten fuel h mylist levels = flatten_loop (descend fuel h) h levels mylist.
Proof. destruct fuel; reflexivity. Qed.

Lemma flatten_loop_stops self (h : heap) levels pre s post :
  is_undefined s = true ->
  flatten_loop self h levels (pre ++ s :: post) = flatten_loop self h levels pre.
Proof.
  intros Hs. induction pre as [|element pre IH]; simpl.
  - by rewrite Hs.
  - by rewrite IH.
Qed.

Lemma is_undefined_spec s :
  is_undefined s = true <-> s = VNone \/ s = VStr "None" \/ s = VStr "null".
Proof.
  destruct s as [| | |s|]; simpl; try by intuition discriminate.
  rewrite orb_true_iff, !String.eqb_eq. intuition congruence.
Qed.

(** C4 (early stop).  [flatten] reads its elements in order and stops at
    the first one equal to [None], ['None'] or ['null']: that element and
    everything after it leave no trace in the result.  In particular
    [flatten([1, [2, [3, 4]], None, 5], levels=1)] is [[1, 2, [3, 4]]],
    the inner list being the object the input holds. *)
Theorem flatten_stops_at_undefined :
  (forall fuel (h : heap) pre s post levels,
     s = VNone \/ s = VStr "None" \/ s = VStr "null" ->
     flatten fuel h (pre ++ s :: post) levels = flatten fuel h pre levels) /\
  (forall fuel (h : heap) a b,
     h !! a = Some (OList [VInt 2; VRef b]) ->
     h !! b = Some (OList [VInt 3; VInt 4]) ->
     flatten (S fuel) h [VInt 1; VRef a; VNone; VInt 5] (Some 1%Z)
       = Some [VInt 1; VInt 2; VRef b]).
Proof.
  split.
  - intros fuel h pre s post levels Hs%is_undefined_spec.
    rewrite !flatten_unfold. by apply flatten_loop_stops.
  - intros fuel h a b Ha Hb. rewrite flatten_unfold. simpl.
    unfold is_sequence, get_list. rewrite Ha. simpl.
    rewrite flatten_unfold. simpl. unfold is_sequence, get_list.
    by rewrite Hb.
Qed.

(** C10 (sentinel in a nested list).  When [flatten] descends into a
    nested list that holds a sentinel, only the rest of that nested list
    is dropped: the result is the flattening of the part before the
    sentinel, followed by the flattening of the elements that come after
    the nested list.  In particular
    [flatten([[1, None, 2], 3], levels=1)] is [[1, 3]]. *)
Theorem flatten_nested_undefined :
  (forall fuel (h : heap) a pre s post rest levels,
     h !! a = Some (OList (pre ++ s :: post)) ->
     s = VNone \/ s = VStr "None" \/ s = VStr "null" ->
     levels = None \/ (exists n, levels = Some n /\ (1 <= n)%Z) ->
     flatten (S fuel) h (VRef a :: rest) levels =
       (sub ← flatten fuel h pre ((fun n => (n - 1)%Z) <$> levels);
        more ← flatten (S fuel) h rest levels;
        Some (sub ++ more))) /\
  (forall fuel (h : heap) a,
     h !! a = Some (OList [VInt 1; VNone; VInt 2]) ->
     flatten (S fuel) h [VRef a; VInt 3] (Some 1%Z) = Some [VInt 1; VInt 3]).
Proof.
  split.
  - intros fuel h a pre s post rest levels Ha Hs%is_undefined_spec Hlev.
    rewrite (flatten_unfold (S fuel) h (VRef a :: rest)).
    cbn [flatten_loop is_undefined]. unfold is_sequence, get_list at 1.
    rewrite Ha.
    assert (descend (S fuel) h (VRef a) ((fun n => (n - 1)%Z) <$> levels)
            = flatten fuel h pre ((fun n => (n - 1)%Z) <$> levels)) as Hd.
    { unfold descend, get_list. rewrite Ha, !flatten_unfold.
      by apply flatten_loop_stops. }
    rewrite <- (flatten_unfold (S fuel) h rest).
    destruct Hlev as [->|(n & -> & Hn)].
    + by rewrite <- Hd.
    + apply Z.leb_le in Hn. rewrite Hn. by rewrite <- Hd.
  - intros fuel h a Ha. rewrite flatten_unfold. simpl.
    unfold is_sequence, get_list. rewrite Ha. simpl.
    by rewrite flatten_unfold.
Qed.

(** ** The two folds *)

Lemma dict_get_dict_update {A} (d other : list (string * A)) k :
  NoDup (keys other) ->
  dict_get k (dict_update d other) =
    match dict_get k other with Some v => Some v | None => dict_get k d end.
Proof.
  unfold dict_update. revert d.
  induction other as [|[k' v] other IH]; intros d Hnd; cbn [fold_left fst snd].
  - done.
  - rewrite keys_cons, NoDup_cons in Hnd. destruct Hnd as [Hk' Hnd].
    rewrite IH by done. cbn [dict_get].
    destruct (String.eqb_spec k k') as [->|Hne].
    + apply dict_get_None in Hk'. rewrite Hk'.
      by rewrite dict_get_set, String.eqb_refl.
    + rewrite dict_get_set. apply String.eqb_neq in Hne. by rewrite Hne.
Qed.

(** Under the default policy a merge is an override, entry by entry. *)
Lemma merge_data_replace dx dy :
  NoDup (keys dx) -> NoDup (keys dy) ->
  exists dr,
    merge_data false "replace" (DDict dx) (DDict dy) = DDict dr /\
    NoDup (keys dr) /\
    forall k, dict_get k dr =
      match dict_get k dy with Some v => Some v | None => dict_get k dx end.
Proof.
  intros Hx Hy. rewrite merge_data_DDict.
  destruct (Nat.eqb (length dx) 0 || data_eq (DDict dx) (DDict dy)) eqn:E.
  - exists dy. split_and!; [done..|]. intros k.
    destruct (dict_get k dy) as [v|] eqn:Ek; [done|].
    apply orb_true_iff in E as [E|E].
    + by destruct dx.
    + rewrite data_eq_DDict in E. apply andb_true_iff in E as [_ E].
      symmetry. apply dict_get_None. intros Hk.
      apply (items_eqb_keys _ _ _ _ E) in Hk. by apply dict_get_None in Ek.
  - cbn [negb andb String.eqb Ascii.eqb Bool.eqb].
    exists (dict_update dx dy).
    split_and!; [done|by apply NoDup_keys_dict_update|].
    intros k. by apply dict_get_dict_update.
Qed.

Lemma last_entry_snoc k dicts dd :
  last_entry k (dicts ++ [dd]) =
    match dict_get k dd with Some v => Some v | None => last_entry k dicts end.
Proof. unfold last_entry. by rewrite fold_left_app. Qed.

Lemma last_entry_from k dicts r :
  fold_left
    (fun r dd => match dict_get k dd with Some v => Some v | None => r end)
    dicts r
  = match last_entry k dicts with Some v => Some v | None => r end.
Proof.
  unfold last_entry. revert r.
  induction dicts as [|dd dicts IH]; intros r; simpl; [done|].
  rewrite IH, (IH (match dict_get k dd with Some v => Some v | None => None end)).
  destruct (fold_left _ dicts None); [done|]. by destruct (dict_get k dd).
Qed.

(** Left to right under the default policy: the last entry wins. *)
Lemma low_to_high_data later : forall dfirst,
  NoDup (keys dfirst) -> Forall (fun dd => NoDup (keys dd)) later ->
  exists dr,
    fold_left (fun acc dd => merge_data false "replace" acc (DDict dd))
      later (DDict dfirst) = DDict dr /\
    NoDup (keys dr) /\
    forall k, dict_get k dr = last_entry k (dfirst :: later).
Proof.
  induction later as [|dd later IH]; intros dfirst Hf Hl; cbn [fold_left].
  - exists dfirst. split_and!; [done..|]. intros k. unfold last_entry. simpl.
    by destruct (dict_get k dfirst).
  - apply Forall_cons in Hl as [Hdd Hl].
    destruct (merge_data_replace dfirst dd Hf Hdd) as (d1 & -> & Hnd1 & Hget1).
    destruct (IH d1 Hnd1 Hl) as (dr & -> & Hnd & Hget).
    exists dr. split_and!; [done..|]. intros k. rewrite Hget.
    unfold last_entry. simpl. rewrite !last_entry_from.
    destruct (last_entry k later); [done|]. rewrite Hget1.
    by destruct (dict_get k dd), (dict_get k dfirst).
Qed.

(** Right to left under the default policy: the same entry wins. *)
Lemma high_to_low_data iterator : forall dlast,
  NoDup (keys dlast) -> Forall (fun dd => NoDup (keys dd)) iterator ->
  exists dr,
    fold_left (fun acc dd => merge_data false "replace" (DDict dd) acc)
      iterator (DDict dlast) = DDict dr /\
    NoDup (keys dr) /\
    forall k, dict_get k dr = last_entry k (reverse (dlast :: iterator)).
Proof.
  induction iterator as [|dd iterator IH]; intros dlast Hf Hl; cbn [fold_left].
  - exists dlast. split_and!; [done..|]. intros k. unfold last_entry. simpl.
    by destruct (dict_get k dlast).
  - apply Forall_cons in Hl as [Hdd Hl].
    destruct (merge_data_replace dd dlast Hdd Hf) as (d1 & -> & Hnd1 & Hget1).
    destruct (IH d1 Hnd1 Hl) as (dr & -> & Hnd & Hget).
    exists dr. split_and!; [done..|]. intros k. rewrite Hget.
    rewrite !reverse_cons, !last_entry_snoc, Hget1.
    by destruct (dict_get k dlast).
Qed.

Section FoldFacts.
Variable dumps : heap -> val -> option string.
Variable to_native : heap -> val -> string.

Lemma merge_high_to_low_snapshot n fuel rec lm iterator : forall dds,
  n <= fuel -> str_in lm list_merge_values = true ->
  forall (H : heap) result dr,
    Forall2 (fun d dd => snapshot n H d = Some (DDict dd)) iterator dds ->
    snapshot n H result = Some (DDict dr) ->
    exists r' h2,
      merge_high_to_low dumps to_native fuel rec lm result iterator H
        = (Return r', H ++ h2) /\
      snapshot n (H ++ h2) r' =
        Some (fold_left (fun acc dd => merge_data rec lm (DDict dd) acc)
                dds (DDict dr)).
Proof.
  intros dds Hfuel Hpol. revert dds.
  induction iterator as [|d iterator IH]; intros dds H result dr Hdocs Hres;
    destruct dds as [|dd dds]; try by inversion Hdocs.
  { exists result, []. by rewrite app_nil_r. }
  apply Forall2_cons in Hdocs as [Hd Hdocs]. cbn [merge_high_to_low fold_left].
  destruct (merge_hash_snapshot dumps to_native n fuel H d result dd dr rec lm)
    as (h2 & Hrun & Hr); [done..|].
  unfold bind at 1. rewrite Hrun.
  destruct (merge_data_keys rec lm dd dr) as (d1 & Hd1 & _).
  rewrite Hd1 in Hr |- *.
  destruct (IH dds (H ++ h2) (VRef (length H)) d1) as (r' & h3 & Hrun' & Hr').
  { eapply Forall2_impl; [exact Hdocs|]. intros ? ?; apply snapshot_app. }
  { done. }
  exists r', (h2 ++ h3). by rewrite app_assoc.
Qed.

Lemma merge_low_to_high_snapshot n fuel rec lm later : forall dds,
  n <= fuel -> str_in lm list_merge_values = true ->
  forall (H : heap) acc dr,
    Forall2 (fun d dd => snapshot n H d = Some (DDict dd)) later dds ->
    snapshot n H acc = Some (DDict dr) ->
    exists r' h2,
      merge_low_to_high dumps to_native fuel rec lm acc later H
        = (Return r', H ++ h2) /\
      snapshot n (H ++ h2) r' =
        Some (fold_left (fun acc dd => merge_data rec lm acc (DDict dd))
                dds (DDict dr)).
Proof.
  intros dds Hfuel Hpol. revert dds.
  induction later as [|d later IH]; intros dds H acc dr Hdocs Hres;
    destruct dds as [|dd dds]; try by inversion Hdocs.
  { exists acc, []. by rewrite app_nil_r. }
  apply Forall2_cons in Hdocs as [Hd Hdocs]. cbn [merge_low_to_high fold_left].
  destruct (merge_hash_snapshot dumps to_native n fuel H acc d dr dd rec lm)
    as (h2 & Hrun & Hr); [done..|].
  unfold bind at 1. rewrite Hrun.
  destruct (merge_data_keys rec lm dr dd) as (d1 & Hd1 & _).
  rewrite Hd1 in Hr |- *.
  destruct (IH dds (H ++ h2) (VRef (length H)) d1) as (r' & h3 & Hrun' & Hr').
  { eapply Forall2_impl; [exact Hdocs|]. intros ? ?; apply snapshot_app. }
  { done. }
  exists r', (h2 ++ h3). by rewrite app_assoc.
Qed.

Lemma snapshot_entry_refl n (h : heap) v d k t :
  snapshot n h v = Some (DDict d) -> dict_get k d = Some t ->
  data_eq t t = true.
Proof.
  intros (? & items & m & _ & _ & _ & _ & Hrel)%read_with_DDict Hk.
  apply dict_get_elem_of in Hk. clear -Hrel Hk.
  induction Hrel as [|[k1 v1] [k2 t2] ? ? [_ Hv]];
    [by apply elem_of_nil in Hk|].
  apply elem_of_cons in Hk as [[= -> ->]|Hk]; [|by auto].
  by eapply read_with_data_eq_refl.
Qed.

(** Where the two folds do agree.  Under the default policy ([recursive]
    false, [list_merge] ['replace']) the right-to-left fold of the driver
    and the left-to-right fold return equal results, for every list of
    two or more valid mappings. *)
Theorem folds_agree_default_policy n fuel (h : heap) dictionaries :
  n <= fuel -> 2 <= length dictionaries ->
  Forall (fun d => exists dd, snapshot n h d = Some (DDict dd)) dictionaries ->
  folds_agree dumps to_native fuel h dictionaries false "replace".
Proof.
  intros Hfuel Hlen Hdocs.
  assert (exists dds,
    Forall2 (fun d dd => snapshot n h d = Some (DDict dd)) dictionaries dds)
    as (dds & Hdds).
  { clear Hlen. induction Hdocs as [|d ds [dd Hd] _ (dds & IH)].
    - by exists [].
    - exists (dd :: dds). by constructor. }
  assert (Forall (fun dd => NoDup (keys dd)) dds) as Hnd.
  { clear -Hdds. induction Hdds; constructor; [|done].
    by eapply read_with_NoDup. }
  unfold folds_agree, combine_fold, left_to_right_fold.
  (* right to left *)
  pose proof (Forall2_reverse _ _ _ Hdds) as Hrev.
  destruct (reverse dictionaries) as [|result iterator] eqn:Erev.
  { apply (f_equal length) in Erev. rewrite length_reverse in Erev.
    simpl in Erev. lia. }
  destruct (reverse dds) as [|dlast it_data] eqn:Erev'; [by inversion Hrev|].
  apply Forall2_cons in Hrev as [Hlast Hit].
  destruct (merge_high_to_low_snapshot n fuel false "replace" iterator
              it_data Hfuel eq_refl h result dlast Hit Hlast)
    as (r1 & h1 & Hrun1 & Hr1).
  (* left to right *)
  destruct Hdds as [|first dfirst later dlater Hfirst Hlater]; [simpl in Hlen; lia|].
  destruct (merge_low_to_high_snapshot n fuel false "replace" later
              dlater Hfuel eq_refl h first dfirst Hlater Hfirst)
    as (r2 & h2 & Hrun2 & Hr2).
  (* the snapshots *)
  apply Forall_cons in Hnd as [Hndf Hndl].
  destruct (low_to_high_data dlater dfirst Hndf Hndl) as (t2 & Ht2 & Hnd2 & Hget2).
  assert (Forall (fun dd => NoDup (keys dd)) (dlast :: it_data)) as Hndr.
  { rewrite <- Erev'. apply Forall_reverse. by constructor. }
  apply Forall_cons in Hndr as [Hndlast Hndit].
  destruct (high_to_low_data it_data dlast Hndlast Hndit)
    as (t1 & Ht1 & Hnd1 & Hget1).
  rewrite Ht1 in Hr1. rewrite Ht2 in Hr2.
  exists r1, (h ++ h1), r2, (h ++ h2), (DDict t1), (DDict t2).
  split_and!; [done|done|by eapply snapshot_le|by eapply snapshot_le|].
  apply data_eq_same_entries; [done..| |].
  - intros k. rewrite Hget1, Hget2, <- Erev', reverse_involutive. done.
  - intros k v. by eapply snapshot_entry_refl.
Qed.
End FoldFacts.

(** * The claims on sample inputs *)

(** C1 fails on the code.  With [recursive] true, the documents
    [{'a': {'b': 1}}], [{'a': 5}], [{'a': {'c': 2}}] are three valid
    mappings; the driver's fold returns [{'a': {'b': 1, 'c': 2}}], the
    left-to-right fold returns [{'a': {'c': 2}}], whatever [list_merge]
    is: the content of the first document comes back although the second
    had overridden it.  With [recursive] false and any [list_merge] but
    ['replace'], the folds differ on [{'l': [1]}], [{'l': 5}],
    [{'l': [2]}]. *)
Lemma folds_disagree_on_mixed_values :
  Forall (fun d => exists dd, snapshot 3 mixed_heap d = Some (DDict dd))
    [VRef 1; VRef 2; VRef 4] /\
  result_snapshot 3
    (combine_fold example_dumps example_to_native 3 true "replace"
       [VRef 1; VRef 2; VRef 4] mixed_heap)
    = Some (DDict [("a", DDict [("b", DInt 1); ("c", DInt 2)])]) /\
  result_snapshot 3
    (left_to_right_fold example_dumps example_to_native 3 true "replace"
       [VRef 1; VRef 2; VRef 4] mixed_heap)
    = Some (DDict [("a", DDict [("c", DInt 2)])]) /\
  Forall (fun list_merge =>
            ~ folds_agree example_dumps example_to_native 3 mixed_heap
                [VRef 1; VRef 2; VRef 4] true list_merge)
    list_merge_values /\
  Forall (fun d => exists dd, snapshot 3 lists_heap d = Some (DDict dd))
    [VRef 1; VRef 2; VRef 4] /\
  Forall (fun list_merge =>
            ~ folds_agree example_dumps example_to_native 3 lists_heap
                [VRef 1; VRef 2; VRef 4] false list_merge)
    ["keep"; "append"; "prepend"; "append_rp"; "prepend_rp"].
Proof.
  assert (forall h docs rec lm t1 t2,
    result_snapshot 3
      (combine_fold example_dumps example_to_native 3 rec lm docs h)
      = Some t1 ->
    result_snapshot 3
      (left_to_right_fold example_dumps example_to_native 3 rec lm docs h)
      = Some t2 ->
    data_eq t1 t2 = false ->
    ~ folds_agree example_dumps example_to_native 3 h docs rec lm) as Hno.
  { intros h docs rec lm t1 t2 H1 H2 Hne
      (r1 & h1 & r2 & h2 & u1 & u2 & Hr1 & Hr2 & Hs1 & Hs2 & Heq).
    rewrite Hr1 in H1. rewrite Hr2 in H2. simpl in H1, H2.
    congruence. }
  split_and!.
  - repeat (constructor; [eexists; reflexivity|]). constructor.
  - reflexivity.
  - reflexivity.
  - repeat (constructor; [eapply Hno; reflexivity|]). constructor.
  - repeat (constructor; [eexists; reflexivity|]). constructor.
  - repeat (constructor; [eapply Hno; reflexivity|]). constructor.
Qed.

Lemma folds_agree_default_policy_witness :
  folds_agree example_dumps example_to_native 3 mixed_heap
    [VRef 1; VRef 2; VRef 4] false "replace".
Proof.
  apply (folds_agree_default_policy example_dumps example_to_native
           3 3 mixed_heap [VRef 1; VRef 2; VRef 4]).
  - lia.
  - simpl. lia.
  - repeat (constructor; [eexists; reflexivity|]). constructor.
Defined.

(** C2 fails on the code.  [x = {'l': [1]}] and [y = {'l': [1]}] are equal,
    so [merge_hash] answers with a copy of [y]; under ['append'] the loop
    would have appended the two lists. *)
Theorem shortcut_differs_from_loop :
  result_snapshot 2
    (merge_hash example_dumps example_to_native 2 (VRef 2) (VRef 3)
       true "append" equal_lists_heap)
    = Some (DDict [("l", DList [DInt 1])]) /\
  result_snapshot 2
    (merge_hash_general example_dumps example_to_native 2 (VRef 2) (VRef 3)
       true "append" equal_lists_heap)
    = Some (DDict [("l", DList [DInt 1; DInt 1])]) /\
  data_eq (DDict [("l", DList [DInt 1])])
          (DDict [("l", DList [DInt 1; DInt 1])]) = false.
Proof. split_and!; reflexivity. Qed.

Lemma merge_hash_list_policies_witness :
  merges_to example_dumps example_to_native 2 policy_heap (VRef 2) (VRef 3)
    true "append_rp" (DDict [("l", DList [DInt 1; DInt 2; DInt 3; DInt 4])]).
Proof.
  apply (merge_hash_list_policies example_dumps example_to_native
           policy_heap (VRef 2) (VRef 3) true); reflexivity.
Defined.

Lemma flatten_stops_at_undefined_witness :
  flatten 2 nested_heap ([VInt 1; VRef 1] ++ VNone :: [VInt 5]) (Some 1%Z)
    = flatten 2 nested_heap [VInt 1; VRef 1] (Some 1%Z) /\
  flatten 2 nested_heap [VInt 1; VRef 1; VNone; VInt 5] (Some 1%Z)
    = Some [VInt 1; VInt 2; VRef 0].
Proof.
  split.
  - apply (proj1 flatten_stops_at_undefined). by left.
  - apply (proj2 flatten_stops_at_undefined 1 nested_heap 1 0); reflexivity.
Defined.

Lemma merge_hash_inputs_unchanged_witness :
  exists r h2,
    merge_hash example_dumps example_to_native 2 (VRef 2) (VRef 3)
      true "append_rp" policy_heap = (Return r, policy_heap ++ h2) /\
    snapshot 2 (policy_heap ++ h2) (VRef 2)
      = Some (DDict [("l", DList [DInt 1; DInt 2; DInt 3])]) /\
    snapshot 2 (policy_heap ++ h2) (VRef 3)
      = Some (DDict [("l", DList [DInt 3; DInt 4])]).
Proof.
  apply (merge_hash_inputs_unchanged example_dumps example_to_native 2 2
           policy_heap (VRef 2) (VRef 3)); [lia|reflexivity..].
Defined.

Lemma merge_hash_invalid_policy_witness :
  merge_hash example_dumps example_to_native 2 (VRef 0) (VRef 1)
    true "bogus" mismatch_heap
  = (Raise (AnsibleError policy_msg), mismatch_heap).
Proof.
  apply (proj2 (merge_hash_invalid_policy example_dumps example_to_native
                  2 (VRef 0) (VRef 1) true "bogus" mismatch_heap)).
  intros Hin. repeat (apply elem_of_cons in Hin as [Hin|Hin]; [discriminate Hin|]).
  by apply elem_of_nil in Hin.
Defined.

Lemma merge_hash_type_mismatch_witness :
  merge_hash example_dumps example_to_native 2 (VRef 0) (VRef 1)
    true "replace" mismatch_heap
  = (Raise (AnsibleError
       ("failed to combine variables, expected dicts but got a 'list' and a 'dict': "
          +:+ nl +:+ "[1, 2]" +:+ nl +:+ "{" +:+ quote +:+ "a" +:+ quote
          +:+ ": 1}")),
     mismatch_heap).
Proof.
  apply (merge_hash_type_mismatch example_dumps example_to_native 2
           (VRef 0) (VRef 1) true "replace" mismatch_heap); reflexivity.
Defined.

Lemma merge_hash_idempotent_and_copy_witness :
  (exists r h',
     merge_hash example_dumps example_to_native 2 (VRef 1) (VRef 1)
       true "append" mismatch_heap = (Return r, h') /\
     py_eq 2 h' r (VRef 1) = Some true) /\
  (exists r h',
     merge_hash example_dumps example_to_native 2 (VRef 2) (VRef 1)
       true "append" mismatch_heap = (Return r, h') /\
     py_eq 2 h' r (VRef 1) = Some true /\
     r <> VRef 1).
Proof.
  destruct (merge_hash_idempotent_and_copy example_dumps example_to_native
              2 2 mismatch_heap true "append" (le_n 2) eq_refl) as [Hx He].
  split.
  - apply (Hx (VRef 1) [("a", DInt 1)]). reflexivity.
  - apply (He (VRef 2) (VRef 1) [("a", DInt 1)]); reflexivity.
Defined.

Lemma merge_hash_keys_witness :
  exists r h' r_items,
    merge_hash example_dumps example_to_native 2 (VRef 1) (VRef 3)
      true "keep" mixed_heap = (Return r, h') /\
    get_dict h' r = Some r_items /\
    forall k, k ∈ keys r_items <->
              k ∈ keys [("a", VRef 0)] \/ k ∈ keys [("c", VInt 2)].
Proof.
  apply (merge_hash_keys example_dumps example_to_native 2 2 mixed_heap
           (VRef 1) (VRef 3) [("a", DDict [("b", DInt 1)])] [("c", DInt 2)]
           _ _ true "keep"); [lia|reflexivity..].
Defined.

Lemma flatten_nested_undefined_witness :
  flatten 1 nested_heap [VRef 2; VInt 3] (Some 1%Z) = Some [VInt 1; VInt 3].
Proof.
  apply (proj2 flatten_nested_undefined 0 nested_heap 2). reflexivity.
Defined.

(** * Further properties *)

(** ** The flattener *)

Lemma flatten_loop_Forall (Q : val -> Prop) self (h : heap) levels l r :
  (forall e s, self e (levels_below levels) = Some s -> Forall Q s) ->
  (forall v, is_undefined v = false ->
             is_sequence h v && descends levels = false -> Q v) ->
  flatten_loop self h levels l = Some r -> Forall Q r.
Proof.
  intros Hself Hkeep. revert r.
  induction l as [|element rest IH]; intros r; cbn [flatten_loop].
  { intros [= <-]. constructor. }
  destruct (is_undefined element) eqn:Hu; [intros [= <-]; constructor|].
  destruct (is_sequence h element) eqn:Hs.
  - destruct levels as [n|]; [destruct (1 <=? n)%Z eqn:Hn|].
    + destruct (self element (Some (n - 1)%Z)) as [sub|] eqn:Esub; [|done].
      destruct (flatten_loop self h (Some n) rest) as [more|]; [|done].
      simpl. intros [= <-]. apply Forall_app. split; [|by apply IH].
      by apply (Hself element).
    + destruct (flatten_loop self h (Some n) rest) as [more|]; [|done].
      simpl. intros [= <-]. constructor; [|by apply IH].
      apply Hkeep; [done|]. by rewrite Hs; simpl.
    + destruct (self element None) as [sub|] eqn:Esub; [|done].
      destruct (flatten_loop self h None rest) as [more|]; [|done].
      simpl. intros [= <-]. apply Forall_app. split; [|by apply IH].
      by apply (Hself element).
  - destruct (flatten_loop self h levels rest) as [more|]; [|done].
    simpl. intros [= <-]. constructor; [|by apply IH].
    apply Hkeep; [done|]. by rewrite Hs.
Qed.

(** The list [flatten] returns holds no undefined marker: whatever the
    input and [levels], no element of the result is [None], ['None'] or
    ['null']. *)
Theorem flatten_result_defined fuel (h : heap) mylist levels r :
  flatten fuel h mylist levels = Some r ->
  Forall (fun v => is_undefined v = false) r.
Proof.
  revert mylist levels r.
  induction fuel as [|f IH]; intros mylist levels r; rewrite flatten_unfold;
    apply flatten_loop_Forall; try done.
  intros e s. unfold descend. destruct (get_list h e); [apply IH | done].
Qed.

(** With [levels=None] the result is flat: none of its elements is a
    list. *)
Theorem flatten_unlimited_is_flat fuel (h : heap) mylist r :
  flatten fuel h mylist None = Some r ->
  Forall (fun v => is_sequence h v = false) r.
Proof.
  revert mylist r.
  induction fuel as [|f IH]; intros mylist r; rewrite flatten_unfold;
    apply flatten_loop_Forall.
  - done.
  - intros v _. by rewrite andb_true_r.
  - intros e s. unfold descend. simpl.
    destruct (get_list h e); [apply IH | done].
  - intros v _. by rewrite andb_true_r.
Qed.

Lemma flatten_loop_is_Some self (h : heap) levels l :
  (descends levels = true ->
   forall e, is_sequence h e = true ->
             is_Some (self e (levels_below levels))) ->
  is_Some (flatten_loop self h levels l).
Proof.
  intros Hself. induction l as [|element rest [more IH]]; cbn [flatten_loop].
  { by eexists. }
  rewrite IH.
  destruct (is_undefined element); [by eexists|].
  destruct (is_sequence h element) eqn:Hs; [|by eexists].
  destruct levels as [n|]; [destruct (1 <=? n)%Z eqn:Hn|].
  - destruct (Hself Hn element Hs) as [sub Hsub]. simpl in Hsub.
    rewrite Hsub. by eexists.
  - by eexists.
  - destruct (Hself eq_refl element Hs) as [sub Hsub]. simpl in Hsub.
    rewrite Hsub. by eexists.
Qed.

(** With a bound on the depth, [flatten] returns: a recursion limit of at
    least [levels] is never reached, whatever the nesting of the input
    (cyclic lists included). *)
Theorem flatten_bounded_returns fuel (h : heap) mylist n :
  Z.to_nat n <= fuel -> is_Some (flatten fuel h mylist (Some n)).
Proof.
  revert mylist n.
  induction fuel as [|f IH]; intros mylist n Hn; rewrite flatten_unfold;
    apply flatten_loop_is_Some; simpl; intros Hd%Z.leb_le e He.
  - lia.
  - unfold is_sequence in He. destruct (get_list h e) as [elems|]; [|done].
    apply IH. lia.
Qed.

Lemma flatten_loop_keeps self (h : heap) levels l :
  Forall (fun v => is_undefined v = false) l ->
  descends levels = false \/ Forall (fun v => is_sequence h v = false) l ->
  flatten_loop self h levels l = Some l.
Proof.
  intros Hu Hs. induction Hu as [|element rest Hu _ IH]; cbn [flatten_loop].
  { done. }
  rewrite Hu, IH.
  2:{ destruct Hs as [?|Hs]; [by left|]. right. by inversion Hs. }
  destruct (is_sequence h element) eqn:He; [|done].
  destruct Hs as [Hd|Hs]; [|inversion Hs; congruence].
  destruct levels as [n|]; [|done]. simpl in Hd. by rewrite Hd.
Qed.

(** [flatten] returns its input as it is when no element is undefined and
    either no element is a list or [levels] is below 1 (nested lists are
    then kept whole). *)
Theorem flatten_keeps fuel (h : heap) mylist levels :
  Forall (fun v => is_undefined v = false) mylist ->
  descends levels = false \/ Forall (fun v => is_sequence h v = false) mylist ->
  flatten fuel h mylist levels = Some mylist.
Proof. intros Hu Hs. rewrite flatten_unfold. by apply flatten_loop_keeps. Qed.

Lemma flatten_loop_app self (h : heap) levels l1 l2 :
  Forall (fun v => is_undefined v = false) l1 ->
  flatten_loop self h levels (l1 ++ l2) =
    (r1 ← flatten_loop self h levels l1;
     r2 ← flatten_loop self h levels l2;
     Some (r1 ++ r2)).
Proof.
  intros Hu. induction Hu as [|element rest Hu _ IH].
  { simpl. by destruct (flatten_loop self h levels l2). }
  rewrite <- app_comm_cons. cbn [flatten_loop]. rewrite Hu, IH.
  destruct (flatten_loop self h levels rest) as [r1|],
           (flatten_loop self h levels l2) as [r2|];
    destruct (is_sequence h element), levels as [n|];
    try destruct (1 <=? n)%Z;
    try destruct (self element _) as [sub|]; simpl; try done;
    by rewrite ?app_assoc.
Qed.

(** [flatten] distributes over concatenation when the first part holds no
    undefined marker: the result is the result for the first part followed
    by the result for the second. *)
Theorem flatten_app fuel (h : heap) l1 l2 levels :
  Forall (fun v => is_undefined v = false) l1 ->
  flatten fuel h (l1 ++ l2) levels =
    (r1 ← flatten fuel h l1 levels;
     r2 ← flatten fuel h l2 levels;
     Some (r1 ++ r2)).
Proof. intros Hu. rewrite !flatten_unfold. by apply flatten_loop_app. Qed.

(** ** What a call can do to the store *)

Lemma keeps_ret {A} k E (Q : A -> Prop) a : Q a -> keeps k E Q (ret a).
Proof. by intros HQ h Hk. Qed.

Lemma keeps_raise {A} k (E : exn -> Prop) (Q : A -> Prop) e :
  E e -> keeps k E Q (raise e).
Proof. by intros HE h Hk. Qed.

Lemma keeps_bind {A B} k E (Q : A -> Prop) (R : B -> Prop) m f :
  keeps k E Q m -> (forall a, Q a -> keeps k E R (f a)) ->
  keeps k E R (bind m f).
Proof.
  intros Hm Hf h Hk. unfold bind. destruct (Hm h Hk) as (Ht & Hl & Ho).
  destruct (m h) as [[a|e] h']; simpl in *; [|done].
  destruct (Hf a Ho h' ltac:(lia)) as (Ht' & Hl' & Ho').
  split_and!; [congruence|lia|done].
Qed.

Lemma keeps_reader {A} k E (Q : A -> Prop) (f : heap -> outcome A) :
  (forall h, match f h with Return a => Q a | Raise e => E e end) ->
  keeps k E Q (fun h => (f h, h)).
Proof. intros Hf h Hk. simpl. split_and!; [done..|apply Hf]. Qed.

Lemma keeps_read_dict k (E : exn -> Prop) v :
  E TypeError -> keeps k E (fun _ => True) (read_dict v).
Proof.
  intros HE h Hk. unfold read_dict. by destruct (get_dict h v).
Qed.

Lemma keeps_read_list k (E : exn -> Prop) v :
  E TypeError -> keeps k E (fun _ => True) (read_list v).
Proof.
  intros HE h Hk. unfold read_list. by destruct (get_list h v).
Qed.

Lemma keeps_or_recursion_error {A} k (E : exn -> Prop) (f : heap -> option A) :
  E RecursionError ->
  keeps k E (fun _ => True) (fun h => or_recursion_error (f h) h).
Proof.
  intros HE h Hk. unfold or_recursion_error. by destruct (f h).
Qed.

Lemma keeps_alloc k E o : keeps k E (ref_from k) (alloc o).
Proof.
  intros h Hk. unfold alloc. simpl. split_and!.
  - by rewrite take_app_le.
  - rewrite length_app. lia.
  - by exists (length h).
Qed.

Lemma keeps_setitem k (E : exn -> Prop) d key v :
  E TypeError -> ref_from k d ->
  keeps k E (fun _ => True) (dict_setitem d key v).
Proof.
  intros HE (b & -> & Hb) h Hk. unfold dict_setitem.
  destruct (h !! b) as [[items|elems]|]; try done. simpl.
  split_and!; [by apply take_insert_ge|by rewrite length_insert|done].
Qed.

Lemma keeps_update k (E : exn -> Prop) d other :
  E TypeError -> ref_from k d ->
  keeps k E (fun _ => True) (dict_update_in_place d other).
Proof.
  intros HE (b & -> & Hb). unfold dict_update_in_place.
  eapply keeps_bind; [by apply keeps_read_dict|]. intros theirs _ h Hk.
  destruct (h !! b) as [[items|elems]|]; try done. simpl.
  split_and!; [by apply take_insert_ge|by rewrite length_insert|done].
Qed.

Lemma keeps_weaken {A} k E (Q R : A -> Prop) m :
  keeps k E Q m -> (forall a, Q a -> R a) -> keeps k E R m.
Proof.
  intros Hm HQR h Hk. destruct (Hm h Hk) as (Ht & Hl & Ho).
  split_and!; [done..|]. destruct (m h).1; [by apply HQR | done].
Qed.

Lemma keeps_for_each {A} k E (body : A -> M unit) l :
  (forall a, keeps k E (fun _ => True) (body a)) ->
  keeps k E (fun _ => True) (for_each body l).
Proof.
  intros Hb. induction l as [|a l IH]; cbn [for_each].
  - by apply keeps_ret.
  - eapply keeps_bind; [apply Hb | by intros _ _].
Qed.

Lemma keeps_dict_copy k (E : exn -> Prop) d :
  E TypeError -> keeps k E (ref_from k) (dict_copy d).
Proof.
  intros HE. unfold dict_copy.
  eapply keeps_bind; [by apply keeps_read_dict|].
  intros items _. apply keeps_alloc.
Qed.

Lemma keeps_merge_lists k fuel lm x key xv yv :
  ref_from k x ->
  keeps k merge_exn (fun _ => True) (merge_lists fuel lm x key xv yv).
Proof.
  intros Hx. unfold merge_lists.
  repeat (destruct (String.eqb lm _);
    [repeat first
       [ by apply keeps_setitem
       | eapply keeps_bind; [by apply keeps_read_list|intros ? _]
       | eapply keeps_bind;
           [by apply (keeps_or_recursion_error k merge_exn
                        (fun h => not_present (identical_or (py_eq fuel h)) _ _))
           |intros ? _]
       | eapply keeps_bind; [apply keeps_alloc|intros r Hr];
         eapply keeps_weaken;
           [apply keeps_setitem; [done | exact Hx] | done] ]|]).
  by apply keeps_ret.
Qed.

Lemma keeps_merge_item k self fuel rec lm x kv :
  (forall a b, keeps k merge_exn (fun _ => True) (self a b)) ->
  ref_from k x ->
  keeps k merge_exn (fun _ => True) (merge_item self fuel rec lm x kv).
Proof.
  intros Hself Hx. unfold merge_item. destruct kv as [key y_value].
  eapply keeps_bind; [by apply keeps_read_dict|]. intros x_items _.
  destruct (dict_get key x_items) as [x_value|]; [|by apply keeps_setitem].
  eapply keeps_bind;
    [by apply (keeps_reader k merge_exn (fun _ => True)
                 (fun h => Return (is_mapping h x_value)))|].
  intros xm _.
  eapply keeps_bind;
    [by apply (keeps_reader k merge_exn (fun _ => True)
                 (fun h => Return (is_mapping h y_value)))|].
  intros ym _.
  destruct (xm && ym).
  - destruct rec; [|by apply keeps_setitem].
    eapply keeps_bind; [apply Hself|]. intros r _. by apply keeps_setitem.
  - eapply keeps_bind;
      [by apply (keeps_reader k merge_exn (fun _ => True)
                   (fun h => Return (is_mutable_sequence h x_value)))|].
    intros xl _.
    eapply keeps_bind;
      [by apply (keeps_reader k merge_exn (fun _ => True)
                   (fun h => Return (is_mutable_sequence h y_value)))|].
    intros yl _.
    destruct (xl && yl); [by apply keeps_merge_lists | by apply keeps_setitem].
Qed.

Lemma keeps_extends {A} k E (Q : A -> Prop) (m : M A) (h : heap) :
  keeps k E Q m -> k = length h -> exists h2, (m h).2 = h ++ h2.
Proof.
  intros Hm ->. destruct (Hm h (le_n _)) as (Ht & Hl & _).
  exists (drop (length h) (m h).2).
  rewrite <- (take_drop (length h) (m h).2) at 1.
  by rewrite Ht, firstn_all.
Qed.

Lemma sd_reader {A} a (m : M A) :
  (forall H : heap, (m H).2 = H) -> stays_dict a m.
Proof. intros Hm H items Ha. rewrite Hm. by exists items. Qed.

Lemma sd_bind {A B} a (m : M A) (f : A -> M B) :
  stays_dict a m -> (forall v, stays_dict a (f v)) -> stays_dict a (bind m f).
Proof.
  intros Hm Hf H items Ha. unfold bind.
  destruct (Hm H items Ha) as [items' Ha'].
  destruct (m H) as [[v|e] H']; simpl in *; [by eapply Hf | by exists items'].
Qed.

Lemma sd_read_dict a v : stays_dict a (read_dict v).
Proof.
  apply sd_reader. intros H. unfold read_dict. by destruct (get_dict H v).
Qed.

Lemma sd_read_list a v : stays_dict a (read_list v).
Proof.
  apply sd_reader. intros H. unfold read_list. by destruct (get_list H v).
Qed.

Lemma sd_or_recursion_error {A} a (f : heap -> option A) :
  stays_dict a (fun h => or_recursion_error (f h) h).
Proof.
  apply sd_reader. intros H. unfold or_recursion_error. by destruct (f H).
Qed.

Lemma sd_alloc a o : stays_dict a (alloc o).
Proof.
  intros H items Ha. exists items. simpl. by apply lookup_app_l_Some.
Qed.

Lemma sd_insert (H : heap) a b items new :
  H !! a = Some (ODict items) ->
  exists items', <[b := ODict new]> H !! a = Some (ODict items').
Proof.
  intros Ha. destruct (decide (b = a)) as [->|Hne].
  - exists new. apply list_lookup_insert_eq. by eapply lookup_lt_Some.
  - exists items. by rewrite list_lookup_insert_ne.
Qed.

Lemma sd_setitem a d key v : stays_dict a (dict_setitem d key v).
Proof.
  intros H items Ha. unfold dict_setitem.
  destruct d as [| | | |b]; try by exists items.
  destruct (H !! b) as [[xi|]|]; try by exists items.
  by eapply sd_insert.
Qed.

Lemma sd_update a d other : stays_dict a (dict_update_in_place d other).
Proof.
  unfold dict_update_in_place. apply sd_bind; [apply sd_read_dict|].
  intros theirs H items Ha.
  destruct d as [| | | |b]; try by exists items.
  destruct (H !! b) as [[xi|]|]; try by exists items.
  by eapply sd_insert.
Qed.

Lemma sd_for_each {A} a (body : A -> M unit) l :
  (forall x, stays_dict a (body x)) -> stays_dict a (for_each body l).
Proof.
  intros Hb. induction l as [|x l IH]; cbn [for_each].
  - by apply sd_reader.
  - apply sd_bind; [apply Hb | by intros _].
Qed.

(** A call that leaves the first [a + 1] objects alone leaves the one at
    [a] alone. *)
Lemma sd_keeps {A} a E (Q : A -> Prop) (m : M A) :
  keeps (S a) E Q m -> stays_dict a m.
Proof.
  intros Hm H items Ha. pose proof (lookup_lt_Some _ _ _ Ha) as Hlt.
  destruct (Hm H ltac:(lia)) as (Ht & _ & _).
  exists items. rewrite <- (lookup_take_lt (m H).2 (S a) a) by lia.
  rewrite Ht. by rewrite lookup_take_lt by lia.
Qed.

Lemma sd_merge_lists a fuel lm x key xv yv :
  stays_dict a (merge_lists fuel lm x key xv yv).
Proof.
  unfold merge_lists.
  repeat (destruct (String.eqb lm _);
    [repeat first
       [ apply sd_setitem | apply sd_read_list | apply sd_alloc
       | apply (sd_or_recursion_error a
                  (fun h => not_present (identical_or (py_eq fuel h)) _ _))
       | apply sd_bind; [|intros ?] ]|]).
  by apply sd_reader.
Qed.

Lemma sd_merge_item a self fuel rec lm x kv :
  (forall xv yv, stays_dict a (self xv yv)) ->
  stays_dict a (merge_item self fuel rec lm x kv).
Proof.
  intros Hself. unfold merge_item. destruct kv as [key y_value].
  apply sd_bind; [apply sd_read_dict|]. intros x_items.
  destruct (dict_get key x_items) as [x_value|]; [|apply sd_setitem].
  apply sd_bind; [by apply sd_reader|]. intros xm.
  apply sd_bind; [by apply sd_reader|]. intros ym.
  destruct (xm && ym).
  - destruct rec; [|apply sd_setitem].
    apply sd_bind; [apply Hself | intros; apply sd_setitem].
  - apply sd_bind; [by apply sd_reader|]. intros xl.
    apply sd_bind; [by apply sd_reader|]. intros yl.
    destruct (xl && yl); [apply sd_merge_lists | apply sd_setitem].
Qed.

Lemma bind_ret_result {A} (m : M A) (v : val) (H : heap) r H' :
  bind m (fun _ => ret v) H = (Return r, H') -> r = v /\ H' = (m H).2.
Proof.
  unfold bind, ret. destruct (m H) as [[x|e] H1]; [|done].
  by intros [= <- <-].
Qed.

Section StoreFacts.
Variable dumps : heap -> val -> option string.
Variable to_native : heap -> val -> string.

Lemma keeps_validate k a b :
  keeps k merge_exn (fun _ => True)
    (_validate_mutable_mappings dumps to_native a b).
Proof.
  intros h Hk. unfold _validate_mutable_mappings. by destruct (negb _).
Qed.

Lemma keeps_merge_hash fuel : forall k x y rec lm,
  keeps k merge_exn (ref_from k) (merge_hash dumps to_native fuel x y rec lm).
Proof.
  induction fuel as [|f IH]; intros k x y rec lm; rewrite merge_hash_unfold.
  all: destruct (negb (str_in lm list_merge_values)); [by apply keeps_raise|].
  all: eapply keeps_bind; [apply keeps_validate|].
  all: intros _ _.
  all: eapply keeps_bind;
    [by apply (keeps_or_recursion_error k merge_exn
                 (fun h => match py_eq_empty_dict _ h x with
                           | Some false => py_eq _ h x y
                           | r => r
                           end))|].
  all: intros same _; destruct same; [by apply keeps_dict_copy|].
  all: eapply keeps_bind; [by apply keeps_dict_copy|]; intros x' Hx'.
  all: destruct (negb rec && String.eqb lm "replace");
    [eapply keeps_bind; [by apply keeps_update | intros _ _; by apply keeps_ret]|].
  all: eapply keeps_bind; [by apply keeps_read_dict|]; intros y_items _.
  all: eapply keeps_bind; [|intros _ _; by apply keeps_ret].
  all: apply keeps_for_each; intros kv; apply keeps_merge_item; [|done].
  all: intros a b; simpl.
  - by apply keeps_raise.
  - eapply keeps_weaken; [apply IH | done].
Qed.

Lemma sd_self_call a fuel rec lm xv yv :
  stays_dict a (self_call dumps to_native fuel rec lm xv yv).
Proof.
  destruct fuel as [|f]; simpl.
  - by apply sd_reader.
  - eapply sd_keeps. apply keeps_merge_hash.
Qed.

(** What [merge_hash] returns is the first object it allocates, and that
    object is a dictionary when the call ends. *)
Lemma merge_hash_result fuel x y rec lm (h : heap) r h' :
  merge_hash dumps to_native fuel x y rec lm h = (Return r, h') ->
  r = VRef (length h) /\ exists items, h' !! length h = Some (ODict items).
Proof.
  rewrite merge_hash_unfold.
  destruct (negb (str_in lm list_merge_values)); [done|].
  unfold bind at 1, _validate_mutable_mappings.
  destruct (negb (is_mapping h x && is_mapping h y)); [done|].
  unfold bind at 1, or_recursion_error.
  destruct (match py_eq_empty_dict fuel h x with
            | Some false => py_eq fuel h x y
            | r => r
            end) as [same|]; [|done].
  destruct same.
  { unfold dict_copy, bind, read_dict, alloc.
    destruct (get_dict h y) as [yi|]; [|done]. intros [= <- <-].
    split; [done|]. exists yi. by rewrite list_lookup_middle. }
  unfold bind at 1, dict_copy at 1, bind at 1, read_dict at 1, alloc at 1.
  destruct (get_dict h x) as [xi|]; [|done].
  assert ((h ++ [ODict xi]) !! length h = Some (ODict xi)) as Hcopy
    by (by rewrite list_lookup_middle).
  destruct (negb rec && String.eqb lm "replace").
  - intros [-> ->]%bind_ret_result. split; [done|].
    by eapply sd_update.
  - unfold bind at 1, read_dict at 1.
    destruct (get_dict (h ++ [ODict xi]) y) as [yi|]; [|done].
    intros [-> ->]%bind_ret_result. split; [done|].
    eapply sd_for_each; [|done]. intros kv. apply sd_merge_item.
    intros xv yv. apply sd_self_call.
Qed.

(** [merge_hash] only allocates, whatever it is given and however it
    ends: the store after the call is the store before it followed by new
    objects, also when the call raises; and when it returns, the result is
    a reference to one of the new objects, a dictionary. *)
Theorem merge_hash_only_allocates fuel x y recursive list_merge (h : heap) :
  exists h2,
    (merge_hash dumps to_native fuel x y recursive list_merge h).2 = h ++ h2 /\
    forall r,
      (merge_hash dumps to_native fuel x y recursive list_merge h).1 = Return r ->
      exists a items,
        r = VRef a /\ length h <= a /\
        (h ++ h2) !! a = Some (ODict items).
Proof.
  pose proof (keeps_merge_hash fuel (length h) x y recursive list_merge) as Hk.
  destruct (keeps_extends _ _ _ _ h Hk eq_refl) as [h2 Hh2].
  exists h2. split; [done|]. intros r Hr.
  destruct (merge_hash dumps to_native fuel x y recursive list_merge h)
    as [o h'] eqn:Hrun.
  simpl in Hr, Hh2. subst o h'.
  destruct (merge_hash_result _ _ _ _ _ _ _ _ Hrun) as (-> & items & Hitems).
  by exists (length h), items.
Qed.
End StoreFacts.

(** ** The driver *)

Lemma mapping_not_flattened n (h : heap) d dd :
  snapshot n h d = Some (DDict dd) ->
  is_undefined d = false /\ is_sequence h d = false.
Proof.
  intros (a & items & m & -> & _ & Ha & _)%read_with_DDict.
  unfold is_sequence, get_list. simpl in Ha. by rewrite Ha.
Qed.

Lemma flatten_mappings n fuel (h : heap) docs dds levels :
  Forall2 (fun d dd => snapshot n h d = Some (DDict dd)) docs dds ->
  flatten fuel h docs levels = Some docs.
Proof.
  intros Hdocs. rewrite flatten_unfold. apply flatten_loop_keeps.
  - induction Hdocs as [|d dd ? ? Hd]; constructor; [|done].
    by destruct (mapping_not_flattened _ _ _ _ Hd).
  - right. induction Hdocs as [|d dd ? ? Hd]; constructor; [|done].
    by destruct (mapping_not_flattened _ _ _ _ Hd).
Qed.

Lemma merge_fold_is_dict rec lm dds : forall d0,
  exists dr,
    fold_left (fun acc dd => merge_data rec lm (DDict dd) acc) dds (DDict d0)
      = DDict dr /\
    forall k, k ∈ keys dr <-> k ∈ keys d0 \/ exists dd, dd ∈ dds /\ k ∈ keys dd.
Proof.
  induction dds as [|dd dds IH]; intros d0; cbn [fold_left].
  - exists d0. split; [done|]. intros k. split; [by left|].
    intros [?|(dd & Hdd%elem_of_nil & _)]; done.
  - destruct (merge_data_keys rec lm dd d0) as (d1 & -> & Hk1).
    destruct (IH d1) as (dr & -> & Hk). exists dr. split; [done|].
    intros k. rewrite Hk, Hk1. split.
    + intros [[?|?]|(dd' & ? & ?)].
      * right. exists dd. split; [by left|done].
      * by left.
      * right. exists dd'. split; [by right|done].
    + intros [?|(dd' & [->|?]%elem_of_cons & ?)].
      * left. by right.
      * left. by left.
      * right. by exists dd'.
Qed.

Lemma reverse_two_nonempty {A} (a b : A) l : reverse (a :: b :: l) <> [].
Proof.
  intros H%(f_equal length). rewrite length_reverse in H. done.
Qed.

Section DriverFacts.
Variable dumps : heap -> val -> option string.
Variable to_native : heap -> val -> string.
Variable check_defined : heap -> val -> outcome unit.

Lemma check_passes dictionaries (h : heap) :
  Forall (fun d => check_defined h d = Return tt) dictionaries ->
  recursive_check_defined check_defined dictionaries h = (Return tt, h).
Proof.
  unfold recursive_check_defined.
  induction 1 as [|d l Hd _ IH]; cbn [for_each]; [done|].
  unfold bind. by rewrite Hd.
Qed.

Lemma check_outcome dictionaries (h : heap) :
  exists o,
    recursive_check_defined check_defined dictionaries h = (o, h) /\
    forall e, o = Raise e -> exists d, check_defined h d = Raise e.
Proof.
  unfold recursive_check_defined.
  induction dictionaries as [|d l (o & IH & Ho)]; cbn [for_each].
  { by exists (Return tt). }
  unfold bind. destruct (check_defined h d) as [[]|e] eqn:Hd.
  - by exists o.
  - exists (Raise e). split; [done|]. intros e' [= <-]. by exists d.
Qed.

(** The driver once the keywords are known, the terms flattened and the
    documents checked. *)
Lemma combine_devel_run fuel terms kw (h : heap) dictionaries :
  kw_others kw = [] ->
  flatten fuel h terms (Some 1%Z) = Some dictionaries ->
  Forall (fun d => check_defined h d = Return tt) dictionaries ->
  combine_devel dumps to_native check_defined fuel terms kw h =
    match dictionaries with
    | [] => alloc (ODict []) h
    | [only] => (Return only, h)
    | _ =>
        combine_fold dumps to_native fuel (default false (kw_recursive kw))
          (default "replace" (kw_list_merge kw)) dictionaries h
    end.
Proof.
  intros Hkw Hflat Hres. unfold combine_devel. rewrite Hkw. cbn [length Nat.eqb negb].
  rewrite (bind_or_recursion_error
             (fun h => flatten fuel h terms (Some 1%Z)) _ _ _ Hflat).
  unfold bind. rewrite (check_passes _ _ Hres).
  by destruct dictionaries as [|d1 [|d2 rest]].
Qed.

(** An undefined document hides the documents after it: the driver gives
    the same answer as for the documents before it; when it comes first
    (and every keyword is known) the answer is a new empty dictionary. *)
Theorem combine_devel_stops_at_undefined fuel pre s post kw (h : heap) :
  is_undefined s = true ->
  combine_devel dumps to_native check_defined fuel (pre ++ s :: post) kw h
    = combine_devel dumps to_native check_defined fuel pre kw h /\
  (kw_others kw = [] ->
   combine_devel dumps to_native check_defined fuel (s :: post) kw h
     = (Return (VRef (length h)), h ++ [ODict []])).
Proof.
  intros Hs. split.
  - unfold combine_devel. destruct (negb _); [done|].
    unfold bind. by rewrite !flatten_unfold, flatten_loop_stops.
  - intros Hkw. rewrite (combine_devel_run _ _ _ _ [] Hkw); [done| |done].
    rewrite flatten_unfold. simpl. by rewrite Hs.
Qed.

(** A single document that passes the host's check is returned as it is:
    the very object, not a copy, with no check that it is a mapping or
    that [list_merge] is a recognised policy, and the store is left
    alone. *)
Theorem combine_devel_single fuel d kw (h : heap) :
  kw_others kw = [] ->
  is_undefined d = false -> is_sequence h d = false ->
  check_defined h d = Return tt ->
  combine_devel dumps to_native check_defined fuel [d] kw h = (Return d, h).
Proof.
  intros Hkw Hu Hs Hc. rewrite (combine_devel_run _ _ _ _ [d] Hkw); [done| |].
  - rewrite flatten_unfold. simpl. by rewrite Hu, Hs.
  - by constructor.
Qed.

(** Passing the documents in one list is the same as passing them one by
    one. *)
Theorem combine_devel_list_argument fuel a docs kw (h : heap) :
  h !! a = Some (OList docs) ->
  Forall (fun d => is_undefined d = false) docs ->
  Forall (fun d => is_sequence h d = false) docs ->
  combine_devel dumps to_native check_defined (S fuel) [VRef a] kw h
    = combine_devel dumps to_native check_defined (S fuel) docs kw h.
Proof.
  intros Ha Hu Hs. unfold combine_devel. destruct (negb _); [done|].
  unfold bind.
  assert (flatten (S fuel) h [VRef a] (Some 1%Z) = Some docs) as ->.
  { rewrite flatten_unfold. cbn [flatten_loop is_undefined].
    unfold is_sequence, get_list at 1. rewrite Ha. simpl.
    unfold get_list. rewrite Ha, flatten_unfold.
    rewrite flatten_loop_keeps; [|done|by left]. simpl. by rewrite app_nil_r. }
  by rewrite flatten_unfold, flatten_loop_keeps by (done || by right).
Qed.

(** On valid mappings that pass the host's check and a recognised policy
    the driver returns a valid mapping, only adds objects to the store,
    and the keys of the result are the keys of all the documents
    together. *)
Theorem combine_devel_returns_mapping n fuel (h : heap) docs dds kw :
  n <= fuel -> kw_others kw = [] ->
  str_in (default "replace" (kw_list_merge kw)) list_merge_values = true ->
  Forall2 (fun d dd => snapshot n h d = Some (DDict dd)) docs dds ->
  Forall (fun d => check_defined h d = Return tt) docs ->
  exists r h2 dr,
    combine_devel dumps to_native check_defined fuel docs kw h
      = (Return r, h ++ h2) /\
    snapshot (S n) (h ++ h2) r = Some (DDict dr) /\
    forall k, k ∈ keys dr <-> exists dd, dd ∈ dds /\ k ∈ keys dd.
Proof.
  intros Hfuel Hkw Hpol Hdocs Hres.
  rewrite (combine_devel_run _ _ _ _ docs Hkw
             (flatten_mappings _ _ _ _ _ _ Hdocs) Hres).
  clear Hres.
  pose proof (Forall2_reverse _ _ _ Hdocs) as Hrev.
  destruct Hdocs as [|d1 dd1 docs dds Hd1 Hdocs].
  { exists (VRef (length h)), [ODict []], []. split_and!; [done| |].
    - unfold snapshot. simpl. by rewrite list_lookup_middle.
    - intros k. split; [by intros ?%elem_of_nil|].
      by intros (dd & ?%elem_of_nil & _). }
  destruct Hdocs as [|d2 dd2 docs dds Hd2 Hdocs].
  { exists d1, [], dd1. rewrite app_nil_r. split_and!; [done| |].
    - by apply read_with_S.
    - intros k. split.
      + intros Hk. exists dd1. split; [by left|done].
      + by intros (dd & ->%list_elem_of_singleton & Hk). }
  unfold combine_fold.
  destruct (reverse (d1 :: d2 :: docs)) as [|result iterator] eqn:Erev;
    [by apply reverse_two_nonempty in Erev|].
  destruct (reverse (dd1 :: dd2 :: dds)) as [|dlast it_data] eqn:Erev';
    [by inversion Hrev|].
  apply Forall2_cons in Hrev as [Hlast Hit].
  destruct (merge_high_to_low_snapshot dumps to_native n fuel
              (default false (kw_recursive kw))
              (default "replace" (kw_list_merge kw)) iterator
              it_data Hfuel Hpol h result dlast Hit Hlast)
    as (r & h2 & Hrun & Hr).
  destruct (merge_fold_is_dict
              (default false (kw_recursive kw))
              (default "replace" (kw_list_merge kw)) it_data dlast)
    as (dr & Hdr & Hkeys).
  rewrite Hdr in Hr. exists r, h2, dr.
  split_and!; [done|by apply read_with_S|].
  assert (forall dd, dd ∈ dd1 :: dd2 :: dds <-> dd = dlast \/ dd ∈ it_data)
    as Hmem.
  { intros dd. by rewrite <- elem_of_reverse, Erev', elem_of_cons. }
  intros k. rewrite Hkeys. split.
  - intros [Hk|(dd & Hdd & Hk)].
    + exists dlast. split; [apply Hmem; by left | done].
    + exists dd. split; [apply Hmem; by right | done].
  - intros (dd & [->|Hdd]%Hmem & Hk); [by left|]. right. by exists dd.
Qed.

(** Under the default policy the last document that has a key decides its
    value: for every key, the result holds the entry of the
    highest-precedence document holding one. *)
Theorem combine_devel_last_entry_wins n fuel (h : heap) docs dds kw :
  n <= fuel -> kw_others kw = [] ->
  default false (kw_recursive kw) = false ->
  default "replace" (kw_list_merge kw) = "replace" ->
  Forall2 (fun d dd => snapshot n h d = Some (DDict dd)) docs dds ->
  Forall (fun d => check_defined h d = Return tt) docs ->
  exists r h2 dr,
    combine_devel dumps to_native check_defined fuel docs kw h
      = (Return r, h ++ h2) /\
    snapshot (S n) (h ++ h2) r = Some (DDict dr) /\
    forall k, dict_get k dr = last_entry k dds.
Proof.
  intros Hfuel Hkw Hrec Hlm Hdocs Hres.
  rewrite (combine_devel_run _ _ _ _ docs Hkw
             (flatten_mappings _ _ _ _ _ _ Hdocs) Hres).
  clear Hres. rewrite Hrec, Hlm.
  assert (Forall (fun dd => NoDup (keys dd)) dds) as Hnd.
  { clear -Hdocs. induction Hdocs; constructor; [|done].
    by eapply read_with_NoDup. }
  pose proof (Forall2_reverse _ _ _ Hdocs) as Hrev.
  destruct Hdocs as [|d1 dd1 docs dds Hd1 Hdocs].
  { exists (VRef (length h)), [ODict []], []. split_and!; [done| |done].
    unfold snapshot. simpl. by rewrite list_lookup_middle. }
  destruct Hdocs as [|d2 dd2 docs dds Hd2 Hdocs].
  { exists d1, [], dd1. rewrite app_nil_r. split_and!; [done| |].
    - by apply read_with_S.
    - intros k. unfold last_entry. simpl. by destruct (dict_get k dd1). }
  unfold combine_fold.
  destruct (reverse (d1 :: d2 :: docs)) as [|result iterator] eqn:Erev;
    [by apply reverse_two_nonempty in Erev|].
  destruct (reverse (dd1 :: dd2 :: dds)) as [|dlast it_data] eqn:Erev';
    [by inversion Hrev|].
  apply Forall2_cons in Hrev as [Hlast Hit].
  destruct (merge_high_to_low_snapshot dumps to_native n fuel false "replace"
              iterator it_data Hfuel eq_refl h result dlast Hit Hlast)
    as (r & h2 & Hrun & Hr).
  apply Forall_reverse in Hnd. rewrite Erev' in Hnd.
  apply Forall_cons in Hnd as [Hndlast Hndit].
  destruct (high_to_low_data it_data dlast Hndlast Hndit)
    as (dr & Hdr & _ & Hget).
  rewrite Hdr in Hr. exists r, h2, dr.
  split_and!; [done|by apply read_with_S|].
  intros k. by rewrite Hget, <- Erev', reverse_involutive.
Qed.

Lemma keeps_merge_high_to_low k fuel rec lm iterator : forall result,
  keeps k merge_exn (fun _ => True)
    (merge_high_to_low dumps to_native fuel rec lm result iterator).
Proof.
  induction iterator as [|d iterator IH]; intros result;
    cbn [merge_high_to_low].
  - by apply keeps_ret.
  - eapply keeps_bind; [apply keeps_merge_hash|]. intros r _. apply IH.
Qed.

(** What follows the check of the documents. *)
Lemma keeps_combine_tail k fuel rec lm (dictionaries : list val) :
  keeps k merge_exn (fun _ => True)
    (match dictionaries with
     | [] => alloc (ODict [])
     | [only] => ret only
     | _ => combine_fold dumps to_native fuel rec lm dictionaries
     end).
Proof.
  destruct dictionaries as [|d1 [|d2 rest]].
  - eapply keeps_weaken; [apply keeps_alloc | done].
  - by apply keeps_ret.
  - unfold combine_fold.
    destruct (reverse (d1 :: d2 :: rest)) as [|result iterator] eqn:Erev;
      [by apply reverse_two_nonempty in Erev|].
    apply keeps_merge_high_to_low.
Qed.

(** The three ways a call with known keywords can go. *)
Lemma combine_devel_cases fuel terms kw (h : heap) :
  kw_others kw = [] ->
  combine_devel dumps to_native check_defined fuel terms kw h
    = (Raise RecursionError, h) \/
  (exists e d,
     check_defined h d = Raise e /\
     combine_devel dumps to_native check_defined fuel terms kw h
       = (Raise e, h)) \/
  (exists dictionaries,
     combine_devel dumps to_native check_defined fuel terms kw h =
       match dictionaries with
       | [] => alloc (ODict [])
       | [only] => ret only
       | _ =>
           combine_fold dumps to_native fuel (default false (kw_recursive kw))
             (default "replace" (kw_list_merge kw)) dictionaries
       end h).
Proof.
  intros Hkw.
  assert (combine_devel dumps to_native check_defined fuel terms kw h =
    match flatten fuel h terms (Some 1%Z) with
    | None => (Raise RecursionError, h)
    | Some dictionaries =>
        match recursive_check_defined check_defined dictionaries h with
        | (Return _, h') =>
            match dictionaries with
            | [] => alloc (ODict [])
            | [only] => ret only
            | _ =>
                combine_fold dumps to_native fuel
                  (default false (kw_recursive kw))
                  (default "replace" (kw_list_merge kw)) dictionaries
            end h'
        | (Raise e, h') => (Raise e, h')
        end
    end) as ->.
  { unfold combine_devel. rewrite Hkw. cbn [length Nat.eqb negb].
    unfold bind, or_recursion_error.
    by destruct (flatten fuel h terms (Some 1%Z)). }
  destruct (flatten fuel h terms (Some 1%Z)) as [dictionaries|]; [|by left].
  right. destruct (check_outcome dictionaries h) as (o & Hc & Ho).
  rewrite Hc. destruct o as [[]|e].
  - right. by exists dictionaries.
  - left. destruct (Ho e eq_refl) as [d Hd]. by exists e, d.
Qed.


(** The driver never modifies an object it was given: whatever the
    documents and the options, and also when it raises, the store after
    the call is the store before it followed by new objects. *)
Theorem combine_devel_only_allocates fuel terms kw (h : heap) :
  exists h2,
    (combine_devel dumps to_native check_defined fuel terms kw h).2 = h ++ h2.
Proof.
  destruct (kw_others kw) as [|o others] eqn:Hkw.
  - destruct (combine_devel_cases fuel terms kw h Hkw)
      as [Hrun|[(e' & d & Hd & Hrun)|(dictionaries & Hrun)]];
      rewrite Hrun.
    + exists []. by rewrite app_nil_r.
    + exists []. by rewrite app_nil_r.
    + by eapply keeps_extends; [by apply keeps_combine_tail|].
  - exists []. unfold combine_devel. by rewrite Hkw, app_nil_r.
Qed.
End DriverFacts.

(** ** The entries and the key order of a merge *)

Lemma merge_lists_data_get lm k xs ys acc k' :
  dict_get k acc = Some (DList xs) ->
  dict_get k' (merge_lists_data lm k xs ys acc) =
    if String.eqb k' k then Some (DList (merge_list_values lm xs ys))
    else dict_get k' acc.
Proof.
  intros Hk. unfold merge_lists_data, merge_list_values.
  repeat (destruct (String.eqb lm _); [by rewrite dict_get_set|]).
  destruct (String.eqb_spec k' k) as [->|]; done.
Qed.

Lemma merge_item_data_get rec lm acc k yv k' :
  dict_get k' (merge_item_data (merge_data rec lm) rec lm acc (k, yv)) =
    if String.eqb k' k then
      Some (match dict_get k acc with
            | None => yv
            | Some xv => merge_values rec lm xv yv
            end)
    else dict_get k' acc.
Proof.
  unfold merge_item_data, merge_values. cbn [fst snd].
  destruct (dict_get k acc) as [xv|] eqn:Hk; [|by rewrite dict_get_set].
  destruct xv, yv; try destruct rec;
    first [ by rewrite dict_get_set | by apply merge_lists_data_get ].
Qed.

Lemma merge_loop_data_get rec lm dy : forall acc k,
  NoDup (keys dy) ->
  dict_get k (fold_left (merge_item_data (merge_data rec lm) rec lm) dy acc)
    = merged_entry rec lm acc dy k.
Proof.
  unfold merged_entry.
  induction dy as [|[k1 v1] dy IH]; intros acc k Hnd; cbn [fold_left].
  { done. }
  rewrite keys_cons, NoDup_cons in Hnd. destruct Hnd as [Hk1 Hnd].
  rewrite IH by done. cbn [dict_get]. rewrite merge_item_data_get.
  destruct (String.eqb_spec k k1) as [->|Hne]; [|done].
  apply dict_get_None in Hk1. rewrite Hk1. by destruct (dict_get k1 acc).
Qed.

Lemma merge_values_default xv yv : merge_values false "replace" xv yv = yv.
Proof. by destruct xv, yv. Qed.

(** Entry by entry, when the [x == y] shortcut is not taken. *)
Lemma merge_data_get rec lm dx dy :
  NoDup (keys dy) -> data_eq (DDict dx) (DDict dy) = false ->
  exists dr,
    merge_data rec lm (DDict dx) (DDict dy) = DDict dr /\
    forall k, dict_get k dr = merged_entry rec lm dx dy k.
Proof.
  intros Hnd Hne. rewrite merge_data_DDict, Hne, orb_false_r.
  destruct dx as [|kv dx]; cbn [length Nat.eqb].
  { exists dy. split; [done|]. intros k. unfold merged_entry. simpl.
    by destruct (dict_get k dy). }
  destruct (negb rec && String.eqb lm "replace") eqn:Hdef.
  - apply andb_true_iff in Hdef as [Hrec%negb_true_iff Hlm%String.eqb_eq].
    subst. eexists. split; [done|]. intros k.
    rewrite dict_get_dict_update by done. unfold merged_entry.
    destruct (dict_get k dy); [|done].
    destruct (dict_get k (kv :: dx)); by rewrite ?merge_values_default.
  - eexists. split; [done|]. intros k. by apply merge_loop_data_get.
Qed.

Lemma keys_dict_set {A} k (v : A) items :
  keys (dict_set k v items) =
    keys items ++ (if decide (k ∈ keys items) then [] else [k]).
Proof.
  destruct (decide (k ∈ keys items)) as [Hin|Hn].
  - by rewrite keys_dict_set_present, app_nil_r.
  - apply dict_get_None in Hn. rewrite dict_set_absent by done.
    unfold keys. by rewrite fmap_app.
Qed.

Lemma keys_merge_item_data self rec lm acc k yv :
  keys (merge_item_data self rec lm acc (k, yv)) =
    keys acc ++ (if decide (k ∈ keys acc) then [] else [k]).
Proof.
  unfold merge_item_data. cbn [fst snd].
  destruct (dict_get k acc) as [xv|] eqn:Hk; [|apply keys_dict_set].
  pose proof (dict_get_Some_keys _ _ _ Hk) as Hin.
  destruct xv, yv; try destruct rec; try apply keys_dict_set.
  all: unfold merge_lists_data.
  all: repeat (destruct (String.eqb lm _); [apply keys_dict_set|]).
  all: by rewrite decide_True, app_nil_r.
Qed.

Lemma filter_new_keys_snoc (acc rest : list string) k :
  k ∉ rest ->
  filter (fun k' => k' ∉ acc ++ [k]) rest = filter (fun k' => k' ∉ acc) rest.
Proof.
  intros Hk. induction rest as [|k' rest IH]; [done|].
  apply not_elem_of_cons in Hk as [Hne Hk].
  rewrite !filter_cons, IH by done.
  destruct (decide (k' ∉ acc ++ [k])) as [H1|H1],
           (decide (k' ∉ acc)) as [H2|H2]; try done.
  - destruct H2. intros Hin. apply H1, elem_of_app. by left.
  - destruct H1. intros [?|?%list_elem_of_singleton]%elem_of_app; done.
Qed.

Lemma keys_step_order {B} (step : list (string * data) -> string * B ->
                                  list (string * data)) :
  (forall acc k v,
     keys (step acc (k, v)) =
       keys acc ++ (if decide (k ∈ keys acc) then [] else [k])) ->
  forall (dy : list (string * B)) acc,
    NoDup (keys dy) ->
    keys (fold_left step dy acc) = keys acc ++ new_keys acc dy.
Proof.
  intros Hstep. unfold new_keys.
  induction dy as [|[k v] dy IH]; intros acc Hnd; cbn [fold_left].
  { unfold keys at 3. simpl. by rewrite app_nil_r. }
  rewrite keys_cons, NoDup_cons in Hnd. destruct Hnd as [Hk Hnd].
  rewrite IH, Hstep, keys_cons, filter_cons by done.
  destruct (decide (k ∈ keys acc)) as [Hin|Hn].
  - rewrite app_nil_r. by rewrite decide_False by (intros ?; done).
  - rewrite decide_True by done.
    rewrite filter_new_keys_snoc by done. by rewrite <- app_assoc.
Qed.

(** The keys of a merge, in order. *)
Lemma merge_data_key_order rec lm dx dy :
  NoDup (keys dy) ->
  exists dr,
    merge_data rec lm (DDict dx) (DDict dy) = DDict dr /\
    keys dr =
      if Nat.eqb (length dx) 0 || data_eq (DDict dx) (DDict dy) then keys dy
      else keys dx ++ new_keys dx dy.
Proof.
  intros Hnd. rewrite merge_data_DDict.
  destruct (Nat.eqb (length dx) 0 || data_eq (DDict dx) (DDict dy));
    [by eexists|].
  destruct (negb rec && String.eqb lm "replace").
  - eexists. split; [done|]. unfold dict_update.
    apply (keys_step_order (fun acc kv => dict_set kv.1 kv.2 acc)); [|done].
    intros acc k v. apply keys_dict_set.
  - eexists. split; [done|].
    apply (keys_step_order (merge_item_data (merge_data rec lm) rec lm));
      [|done].
    intros acc k v. apply keys_merge_item_data.
Qed.

(** ** The shortcuts of [merge_hash] against its loop *)

Lemma store_last (h : heap) o o' : <[length h := o]> (h ++ [o']) = h ++ [o].
Proof.
  rewrite insert_app_r_alt by done. by rewrite Nat.sub_diag.
Qed.

Lemma setitem_run (H : heap) a items key v :
  H !! a = Some (ODict items) ->
  dict_setitem (VRef a) key v H
    = (Return tt, <[a := ODict (dict_set key v items)]> H).
Proof. intros Ha. unfold dict_setitem. by rewrite Ha. Qed.

(** Under the default policy every turn of the loop is [x[key] = y_value]. *)
Lemma merge_item_default self fuel (H : heap) a items kv :
  H !! a = Some (ODict items) ->
  merge_item self fuel false "replace" (VRef a) kv H
    = (Return tt, <[a := ODict (dict_set kv.1 kv.2 items)]> H).
Proof.
  intros Ha. destruct kv as [key y_value]. unfold merge_item.
  rewrite (bind_read_dict _ _ _ _ Ha). cbn [fst snd].
  destruct (dict_get key items) as [x_value|]; [|by apply setitem_run].
  unfold bind at 1, isinstance_MutableMapping at 1.
  unfold bind at 1, isinstance_MutableMapping at 1.
  destruct (is_mapping H x_value && is_mapping H y_value);
    [by apply setitem_run|].
  unfold bind at 1, isinstance_MutableSequence at 1.
  unfold bind at 1, isinstance_MutableSequence at 1.
  destruct (is_mutable_sequence H x_value && is_mutable_sequence H y_value);
    by apply setitem_run.
Qed.

Lemma for_each_default self fuel a y_items : forall (H : heap) items,
  H !! a = Some (ODict items) ->
  for_each (merge_item self fuel false "replace" (VRef a)) y_items H
    = (Return tt, <[a := ODict (dict_update items y_items)]> H).
Proof.
  unfold dict_update.
  induction y_items as [|kv y_items IH]; intros H items Ha; cbn [for_each fold_left].
  { unfold ret. by rewrite list_insert_id. }
  unfold bind at 1. rewrite (merge_item_default _ _ _ _ _ _ Ha).
  pose proof (lookup_lt_Some _ _ _ Ha) as Hlt.
  rewrite (IH _ (dict_set kv.1 kv.2 items))
    by (by apply list_lookup_insert_eq).
  by rewrite list_insert_insert_eq.
Qed.

(** A key the copy does not have is inserted, under every policy. *)
Lemma for_each_new_keys self fuel rec lm a rest : forall (H : heap) acc,
  H !! a = Some (ODict acc) ->
  NoDup (keys rest) ->
  (forall k, k ∈ keys rest -> k ∉ keys acc) ->
  for_each (merge_item self fuel rec lm (VRef a)) rest H
    = (Return tt, <[a := ODict (acc ++ rest)]> H).
Proof.
  induction rest as [|[k v] rest IH]; intros H acc Ha Hnd Hnew;
    cbn [for_each].
  { unfold ret. by rewrite app_nil_r, list_insert_id. }
  rewrite keys_cons, NoDup_cons in Hnd. destruct Hnd as [Hk Hnd].
  assert (dict_get k acc = None) as Hget.
  { apply dict_get_None, Hnew. rewrite keys_cons. by left. }
  unfold bind at 1, merge_item.
  rewrite (bind_read_dict _ _ _ _ Ha), Hget, (setitem_run _ _ _ _ _ Ha).
  rewrite dict_set_absent by done.
  pose proof (lookup_lt_Some _ _ _ Ha) as Hlt.
  rewrite (IH _ (acc ++ [(k, v)])); [|by apply list_lookup_insert_eq|done|].
  - by rewrite list_insert_insert_eq, <- app_assoc.
  - intros k' Hk'. unfold keys. rewrite fmap_app, not_elem_of_app.
    split.
    + apply Hnew. rewrite keys_cons. by right.
    + simpl. rewrite list_elem_of_singleton. intros ->. done.
Qed.

Lemma merge_values_other rec lm xv yv :
  data_is_dict xv && data_is_dict yv = false ->
  data_is_list xv && data_is_list yv = false ->
  merge_values rec lm xv yv = yv.
Proof. by destruct xv, yv. Qed.

Section ShortcutFacts.
Variable dumps : heap -> val -> option string.
Variable to_native : heap -> val -> string.

Lemma merge_hash_general_unfold fuel x y recursive list_merge :
  merge_hash_general dumps to_native fuel x y recursive list_merge =
    if negb (str_in list_merge list_merge_values) then
      raise (AnsibleError policy_msg)
    else
      _validate_mutable_mappings dumps to_native x y;;
      let* x := dict_copy x in
      let* y_items := read_dict y in
      for_each
        (merge_item
           (match fuel with
            | 0 => fun _ _ => raise RecursionError
            | S f => fun x_value y_value =>
                merge_hash_general dumps to_native f x_value y_value
                  recursive list_merge
            end)
           fuel recursive list_merge x)
        y_items;;
      ret x.
Proof. destruct fuel; reflexivity. Qed.

(** The loop alone, when every turn is an assignment. *)
Lemma merge_hash_general_run fuel x y rec lm (h : heap) x_items y_items items :
  str_in lm list_merge_values = true ->
  get_dict h x = Some x_items -> get_dict h y = Some y_items ->
  (forall self (H : heap),
     H !! length h = Some (ODict x_items) ->
     for_each (merge_item self fuel rec lm (VRef (length h))) y_items H
       = (Return tt, <[length h := ODict items]> H)) ->
  merge_hash_general dumps to_native fuel x y rec lm h
    = (Return (VRef (length h)), h ++ [ODict items]).
Proof.
  intros Hpol Hx Hy Hloop. rewrite merge_hash_general_unfold, Hpol. cbn [negb].
  unfold bind at 1, _validate_mutable_mappings, is_mapping.
  rewrite Hx, Hy. cbn [andb negb].
  unfold get_dict in Hx, Hy.
  destruct x as [| | | |ax]; try done. destruct y as [| | | |ay]; try done.
  destruct (h !! ax) as [[xi|]|] eqn:Hax; try done.
  destruct (h !! ay) as [[yi|]|] eqn:Hay; try done. simplify_eq.
  unfold dict_copy at 1. unfold bind at 1.
  rewrite (bind_read_dict _ _ _ _ Hax). unfold alloc at 1.
  rewrite (bind_read_dict _ _ _ y_items) by (by apply lookup_app_l_Some).
  unfold bind at 1. rewrite Hloop by (by rewrite list_lookup_middle).
  unfold ret. by rewrite store_last.
Qed.

Lemma shortcut_test_reads n fuel (h : heap) x y dx dy :
  n <= fuel ->
  snapshot n h x = Some (DDict dx) -> snapshot n h y = Some (DDict dy) ->
  match py_eq_empty_dict fuel h x with
  | Some false => py_eq fuel h x y
  | r => r
  end = Some (Nat.eqb (length dx) 0 || data_eq (DDict dx) (DDict dy)).
Proof.
  intros Hfuel Hx Hy.
  pose proof Hx as (ax & xi & m & -> & _ & Hax & _ & Hxi)%read_with_DDict.
  unfold py_eq_empty_dict. simpl in Hax. rewrite Hax. unfold obj_eq.
  rewrite <- (items_rel_length _ _ _ Hxi).
  destruct xi as [|? ?]; [done|]. cbn [length Nat.eqb orb].
  eapply py_eq_reads; [exact Hfuel|apply sub_refl|done..].
Qed.

(** The run of [merge_hash] under the default policy. *)
Lemma merge_hash_default_run n fuel (h : heap) x y dx dy x_items y_items :
  n <= fuel ->
  snapshot n h x = Some (DDict dx) -> snapshot n h y = Some (DDict dy) ->
  get_dict h x = Some x_items -> get_dict h y = Some y_items ->
  merge_hash dumps to_native fuel x y false "replace" h
    = (Return (VRef (length h)),
       h ++ [ODict (if Nat.eqb (length dx) 0 || data_eq (DDict dx) (DDict dy)
                    then y_items else dict_update x_items y_items)]).
Proof.
  intros Hfuel Hsx Hsy Hx Hy. rewrite merge_hash_unfold. cbn [str_in existsb
    list_merge_values String.eqb Ascii.eqb Bool.eqb orb negb andb].
  unfold bind at 1, _validate_mutable_mappings, is_mapping.
  rewrite Hx, Hy. cbn [andb negb].
  rewrite (bind_or_recursion_error
             (fun h => match py_eq_empty_dict fuel h x with
                       | Some false => py_eq fuel h x y
                       | r => r
                       end) _ _ _
             (shortcut_test_reads n fuel h x y dx dy Hfuel Hsx Hsy)).
  unfold get_dict in Hx, Hy.
  destruct x as [| | | |ax]; try done. destruct y as [| | | |ay]; try done.
  destruct (h !! ax) as [[xi|]|] eqn:Hax; try done.
  destruct (h !! ay) as [[yi|]|] eqn:Hay; try done. simplify_eq.
  destruct (Nat.eqb (length dx) 0 || data_eq (DDict dx) (DDict dy)).
  - unfold dict_copy. by rewrite (bind_read_dict _ _ _ _ Hay).
  - unfold dict_copy at 1. unfold bind at 1.
    rewrite (bind_read_dict _ _ _ _ Hax). unfold alloc at 1.
    unfold bind at 1, dict_update_in_place.
    rewrite (bind_read_dict _ _ _ y_items) by (by apply lookup_app_l_Some).
    rewrite list_lookup_middle by done. unfold ret. by rewrite store_last.
Qed.
End ShortcutFacts.

Section MergeMore.
Variable dumps : heap -> val -> option string.
Variable to_native : heap -> val -> string.

(** Entry by entry.  When [x] and [y] are valid mappings that are not
    equal, the result holds, under each key: the entry of [x] when [y] has
    none; the entry of [y] when [x] has none; and otherwise the recursive
    merge of two mappings (when [recursive]), the combination of two lists
    that [list_merge] asks for, or the value of [y]. *)
Theorem merge_hash_entries n fuel (h : heap) x y dx dy recursive list_merge :
  n <= fuel -> str_in list_merge list_merge_values = true ->
  snapshot n h x = Some (DDict dx) -> snapshot n h y = Some (DDict dy) ->
  py_eq fuel h x y = Some false ->
  exists r h2 dr,
    merge_hash dumps to_native fuel x y recursive list_merge h
      = (Return r, h ++ h2) /\
    snapshot n (h ++ h2) r = Some (DDict dr) /\
    forall k, dict_get k dr = merged_entry recursive list_merge dx dy k.
Proof.
  intros Hfuel Hpol Hx Hy Hne.
  rewrite (py_eq_reads n fuel _ h x y _ _ Hfuel (sub_refl _) Hx Hy) in Hne.
  injection Hne as Hne.
  destruct (merge_hash_snapshot dumps to_native n fuel h x y dx dy
              recursive list_merge) as (h2 & Hrun & Hr); [done..|].
  destruct (merge_data_get recursive list_merge dx dy) as (dr & Hdr & Hget);
    [by eapply read_with_NoDup|done|].
  rewrite Hdr in Hr. by exists (VRef (length h)), h2, dr.
Qed.

(** Precedence.  For valid mappings, whether equal or not: a key only [x]
    has keeps the value of [x]; a key only [y] has gets the value of [y];
    and under a key both have, [y] wins unless both values are mappings
    or both are lists. *)
Theorem merge_hash_precedence n fuel (h : heap) x y dx dy recursive list_merge :
  n <= fuel -> str_in list_merge list_merge_values = true ->
  snapshot n h x = Some (DDict dx) -> snapshot n h y = Some (DDict dy) ->
  exists r h2 dr,
    merge_hash dumps to_native fuel x y recursive list_merge h
      = (Return r, h ++ h2) /\
    snapshot n (h ++ h2) r = Some (DDict dr) /\
    forall k,
      (dict_get k dy = None -> dict_get k dr = dict_get k dx) /\
      (dict_get k dx = None -> dict_get k dr = dict_get k dy) /\
      (forall xv yv,
         dict_get k dx = Some xv -> dict_get k dy = Some yv ->
         data_is_dict xv && data_is_dict yv = false ->
         data_is_list xv && data_is_list yv = false ->
         dict_get k dr = Some yv).
Proof.
  intros Hfuel Hpol Hx Hy.
  destruct (merge_hash_snapshot dumps to_native n fuel h x y dx dy
              recursive list_merge) as (h2 & Hrun & Hr); [done..|].
  destruct (data_eq (DDict dx) (DDict dy)) eqn:Heq.
  - rewrite merge_data_DDict, Heq, orb_true_r in Hr.
    exists (VRef (length h)), h2, dy. split_and!; [done..|].
    intros k. split_and!.
    + intros Hk. rewrite Hk. symmetry. apply dict_get_None. intros Hin.
      rewrite data_eq_DDict in Heq. apply andb_true_iff in Heq as [_ Heq].
      apply (items_eqb_keys _ _ _ _ Heq) in Hin. by apply dict_get_None in Hk.
    + done.
    + by intros xv yv _ Hyv _ _.
  - destruct (merge_data_get recursive list_merge dx dy) as (dr & Hdr & Hget);
      [by eapply read_with_NoDup|done|].
    rewrite Hdr in Hr. exists (VRef (length h)), h2, dr.
    split_and!; [done..|]. intros k. rewrite Hget. unfold merged_entry.
    split_and!.
    + by intros ->.
    + intros ->. by destruct (dict_get k dy).
    + intros xv yv -> -> Hd Hl. by rewrite merge_values_other.
Qed.

(** Key order.  The result of a merge of valid mappings lists the keys of
    [x] in the order of [x], followed by the keys only [y] has in the
    order of [y]; when [x] is empty or equal to [y], it lists the keys of
    [y] in the order of [y]. *)
Theorem merge_hash_key_order n fuel (h : heap) x y dx dy x_items y_items
    recursive list_merge :
  n <= fuel -> str_in list_merge list_merge_values = true ->
  snapshot n h x = Some (DDict dx) -> snapshot n h y = Some (DDict dy) ->
  get_dict h x = Some x_items -> get_dict h y = Some y_items ->
  exists r h' r_items,
    merge_hash dumps to_native fuel x y recursive list_merge h
      = (Return r, h') /\
    get_dict h' r = Some r_items /\
    (x_items = [] \/ py_eq fuel h x y = Some true ->
     keys r_items = keys y_items) /\
    (x_items <> [] -> py_eq fuel h x y = Some false ->
     keys r_items = keys x_items ++ new_keys x_items y_items).
Proof.
  intros Hfuel Hpol Hx Hy Hxi Hyi.
  destruct (merge_hash_snapshot dumps to_native n fuel h x y dx dy
              recursive list_merge) as (h2 & Hrun & Hr); [done..|].
  rewrite (py_eq_reads n fuel _ h x y _ _ Hfuel (sub_refl _) Hx Hy).
  destruct (merge_data_key_order recursive list_merge dx dy)
    as (dr & Hdr & Hkeys); [by eapply read_with_NoDup|].
  rewrite Hdr in Hr.
  apply read_with_DDict in Hr as (? & ri & ? & [= <-] & _ & Hri & _ & Hrel).
  apply read_with_DDict in Hx as (ax & xi & ? & -> & _ & Hax & _ & Hxrel).
  apply read_with_DDict in Hy as (ay & yi & ? & -> & _ & Hay & _ & Hyrel).
  unfold get_dict in Hxi, Hyi. rewrite Hax in Hxi. rewrite Hay in Hyi.
  simplify_eq.
  exists (VRef (length h)), (h ++ h2), ri. split; [done|].
  split; [unfold get_dict; by rewrite Hri|].
  rewrite (items_rel_keys _ _ _ Hrel), Hkeys.
  unfold new_keys.
  rewrite (items_rel_keys _ _ _ Hxrel), (items_rel_keys _ _ _ Hyrel).
  rewrite <- (items_rel_length _ _ _ Hxrel).
  generalize (data_eq (DDict dx) (DDict dy)). intros b.
  split.
  - intros [->|[= ->]]; [done|]. by rewrite orb_true_r.
  - intros Hne [= ->]. by destruct x_items.
Qed.

(** The [update] shortcut.  Under the default policy [merge_hash] and its
    loop agree on valid mappings: both return, and the results are equal
    as Python values. *)
Theorem merge_hash_default_agrees_with_loop n fuel (h : heap) x y dx dy :
  n <= fuel ->
  snapshot n h x = Some (DDict dx) -> snapshot n h y = Some (DDict dy) ->
  exists r1 h1 r2 h2 t1 t2,
    merge_hash dumps to_native fuel x y false "replace" h = (Return r1, h1) /\
    merge_hash_general dumps to_native fuel x y false "replace" h
      = (Return r2, h2) /\
    snapshot n h1 r1 = Some t1 /\ snapshot n h2 r2 = Some t2 /\
    data_eq t1 t2 = true.
Proof.
  intros Hfuel Hx Hy.
  destruct (merge_hash_snapshot dumps to_native n fuel h x y dx dy
              false "replace") as (h2 & Hrun & Hr); [done..|].
  pose proof (read_with_NoDup _ _ _ _ Hx) as Hndx.
  pose proof (read_with_NoDup _ _ _ _ Hy) as Hndy.
  destruct (merge_data_replace dx dy Hndx Hndy) as (dr & Hdr & Hnd & Hget).
  rewrite Hdr in Hr.
  pose proof Hx as (ax & xi & m & -> & -> & Hax & Hndxi & Hxrel)%read_with_DDict.
  pose proof Hy as (ay & yi & ? & -> & [= <-] & Hay & Hndyi & Hyrel)%read_with_DDict.
  simpl in Hax, Hay.
  exists (VRef (length h)), (h ++ h2), (VRef (length h)),
    (h ++ [ODict (dict_update xi yi)]), (DDict dr), (DDict (dict_update dx dy)).
  split_and!; [done| |done| |].
  - eapply merge_hash_general_run; [done|unfold get_dict; by rewrite Hax
      |unfold get_dict; by rewrite Hay|].
    intros self H HH. by apply for_each_default.
  - eapply read_with_dict.
    + by rewrite list_lookup_middle.
    + by apply NoDup_keys_dict_update.
    + apply items_rel_dict_update.
      * eapply items_rel_impl; [exact Hxrel|].
        intros ? ?; apply read_with_sub. intros a o Ha.
        by apply lookup_app_l_Some.
      * eapply items_rel_impl; [exact Hyrel|].
        intros ? ?; apply read_with_sub. intros a o Ha.
        by apply lookup_app_l_Some.
  - apply data_eq_same_entries; [done|by apply NoDup_keys_dict_update| |].
    + intros k. by rewrite Hget, dict_get_dict_update.
    + intros k v. rewrite Hget. destruct (dict_get k dy) as [w|] eqn:Hk.
      * intros [= <-]. exact (snapshot_entry_refl _ _ _ _ _ _ Hy Hk).
      * intros Hv. exact (snapshot_entry_refl _ _ _ _ _ _ Hx Hv).
Qed.

(** The [x == {}] shortcut.  When [x] is an empty dictionary, [merge_hash]
    and its loop do the same thing, under every recognised policy: the
    same result and the same store, a copy of [y]. *)
Theorem merge_hash_empty_is_loop fuel (h : heap) x y y_items
    recursive list_merge :
  str_in list_merge list_merge_values = true ->
  get_dict h x = Some [] -> get_dict h y = Some y_items ->
  NoDup (keys y_items) ->
  merge_hash dumps to_native fuel x y recursive list_merge h
    = (Return (VRef (length h)), h ++ [ODict y_items]) /\
  merge_hash_general dumps to_native fuel x y recursive list_merge h
    = (Return (VRef (length h)), h ++ [ODict y_items]).
Proof.
  intros Hpol Hx Hy Hnd. split.
  - rewrite merge_hash_unfold, Hpol. cbn [negb].
    unfold bind at 1, _validate_mutable_mappings, is_mapping.
    rewrite Hx, Hy. cbn [andb negb].
    rewrite (bind_or_recursion_error
               (fun h => match py_eq_empty_dict fuel h x with
                         | Some false => py_eq fuel h x y
                         | r => r
                         end) _ _ true).
    2:{ unfold py_eq_empty_dict, get_dict in *.
        destruct x as [| | | |ax]; try done.
        by destruct (h !! ax) as [[[|]|]|]. }
    unfold get_dict in Hy. destruct y as [| | | |ay]; try done.
    destruct (h !! ay) as [[yi|]|] eqn:Hay; try done. simplify_eq.
    unfold dict_copy. by rewrite (bind_read_dict _ _ _ _ Hay).
  - eapply merge_hash_general_run; [done..|].
    intros self H HH.
    rewrite (for_each_new_keys self fuel recursive list_merge (length h)
               y_items H [] HH Hnd); [done|].
    intros k _. apply not_elem_of_nil.
Qed.

(** Sharing.  Under the default policy [merge_hash] allocates one object,
    the result, and every value the result holds is a value of [y] or of
    [x] itself, not a copy: the value of [y] where [y] has the key, the
    value of [x] elsewhere. *)
Theorem merge_hash_default_shares_values n fuel (h : heap) x y dx dy
    x_items y_items :
  n <= fuel ->
  snapshot n h x = Some (DDict dx) -> snapshot n h y = Some (DDict dy) ->
  get_dict h x = Some x_items -> get_dict h y = Some y_items ->
  exists items,
    merge_hash dumps to_native fuel x y false "replace" h
      = (Return (VRef (length h)), h ++ [ODict items]) /\
    forall k, dict_get k items =
      match dict_get k y_items with
      | Some v => Some v
      | None => dict_get k x_items
      end.
Proof.
  intros Hfuel Hsx Hsy Hx Hy.
  eexists. split; [by eapply merge_hash_default_run|].
  pose proof Hsx as (ax & xi & m & -> & _ & Hax & _ & Hxrel)%read_with_DDict.
  pose proof Hsy as (ay & yi & ? & -> & _ & Hay & Hndy & Hyrel)%read_with_DDict.
  unfold get_dict in Hx, Hy. simpl in Hax, Hay.
  rewrite Hax in Hx. rewrite Hay in Hy. simplify_eq.
  intros k.
  destruct (Nat.eqb (length dx) 0 || data_eq (DDict dx) (DDict dy)) eqn:E;
    [|by apply dict_get_dict_update].
  destruct (dict_get k y_items) as [v|] eqn:Hk; [done|].
  symmetry. apply dict_get_None.
  rewrite (items_rel_keys _ _ _ Hxrel). intros Hin.
  apply dict_get_None in Hk. rewrite (items_rel_keys _ _ _ Hyrel) in Hk.
  apply orb_true_iff in E as [E|E].
  - destruct dx; [by apply elem_of_nil in Hin | done].
  - rewrite data_eq_DDict in E. apply andb_true_iff in E as [_ E].
    by apply (items_eqb_keys _ _ _ _ E) in Hin.
Qed.
End MergeMore.

(** ** The further properties on sample inputs *)

Lemma flatten_result_defined_witness :
  Forall (fun v => is_undefined v = false) [VInt 1; VInt 2; VRef 0].
Proof.
  apply (flatten_result_defined 2 nested_heap
           [VInt 1; VRef 1; VNone; VInt 5] (Some 1%Z)).
  reflexivity.
Defined.

Lemma flatten_unlimited_is_flat_witness :
  Forall (fun v => is_sequence nested_heap v = false)
    [VInt 1; VInt 2; VInt 3; VInt 4].
Proof.
  apply (flatten_unlimited_is_flat 2 nested_heap
           [VInt 1; VRef 1; VNone; VInt 5]).
  reflexivity.
Defined.

Lemma flatten_bounded_returns_witness :
  is_Some (flatten 1 nested_heap [VInt 1; VRef 1; VRef 2] (Some 1%Z)).
Proof.
  apply (flatten_bounded_returns 1 nested_heap [VInt 1; VRef 1; VRef 2] 1).
  simpl. lia.
Defined.

Lemma flatten_keeps_witness :
  flatten 0 nested_heap [VInt 1; VRef 1] (Some 0%Z) = Some [VInt 1; VRef 1].
Proof.
  apply (flatten_keeps 0 nested_heap [VInt 1; VRef 1] (Some 0%Z)).
  - repeat constructor.
  - left. reflexivity.
Defined.

Lemma flatten_app_witness :
  flatten 1 nested_heap ([VInt 1; VRef 1] ++ [VRef 2; VInt 3]) (Some 1%Z) =
    (r1 ← flatten 1 nested_heap [VInt 1; VRef 1] (Some 1%Z);
     r2 ← flatten 1 nested_heap [VRef 2; VInt 3] (Some 1%Z);
     Some (r1 ++ r2)).
Proof.
  apply (flatten_app 1 nested_heap [VInt 1; VRef 1] [VRef 2; VInt 3]).
  repeat constructor.
Defined.

Lemma combine_devel_stops_at_undefined_witness :
  combine_devel example_dumps example_to_native example_check_defined 3
    ([VRef 1; VRef 2] ++ VStr "null" :: [VRef 4]) no_kwargs mixed_heap
  = combine_devel example_dumps example_to_native example_check_defined 3
      [VRef 1; VRef 2] no_kwargs mixed_heap.
Proof.
  apply (combine_devel_stops_at_undefined example_dumps example_to_native
           example_check_defined 3
           [VRef 1; VRef 2] (VStr "null") [VRef 4] no_kwargs mixed_heap).
  reflexivity.
Defined.

Lemma combine_devel_single_witness :
  combine_devel example_dumps example_to_native example_check_defined 3 [VInt 7]
    {| kw_recursive := Some true; kw_list_merge := Some "bogus";
       kw_others := [] |} mixed_heap
  = (Return (VInt 7), mixed_heap).
Proof.
  apply (combine_devel_single example_dumps example_to_native
           example_check_defined 3 (VInt 7));
    reflexivity.
Defined.

Lemma combine_devel_list_argument_witness :
  combine_devel example_dumps example_to_native example_check_defined 3 [VRef 5] no_kwargs
    listed_heap
  = combine_devel example_dumps example_to_native example_check_defined 3 [VRef 1; VRef 2; VRef 4]
      no_kwargs listed_heap.
Proof.
  apply (combine_devel_list_argument example_dumps example_to_native
           example_check_defined 2 5
           [VRef 1; VRef 2; VRef 4] no_kwargs listed_heap).
  - reflexivity.
  - repeat constructor.
  - repeat constructor.
Defined.

Lemma combine_devel_returns_mapping_witness :
  exists r h2 dr,
    combine_devel example_dumps example_to_native example_check_defined 3 [VRef 1; VRef 2; VRef 4]
      {| kw_recursive := Some true; kw_list_merge := Some "keep";
         kw_others := [] |} mixed_heap
      = (Return r, mixed_heap ++ h2) /\
    snapshot 4 (mixed_heap ++ h2) r = Some (DDict dr) /\
    forall k, k ∈ keys dr <->
      exists dd,
        dd ∈ [[("a", DDict [("b", DInt 1)])]; [("a", DInt 5)];
              [("a", DDict [("c", DInt 2)])]] /\
        k ∈ keys dd.
Proof.
  apply (combine_devel_returns_mapping example_dumps example_to_native
           example_check_defined 3 3
           mixed_heap [VRef 1; VRef 2; VRef 4]).
  - lia.
  - reflexivity.
  - reflexivity.
  - repeat constructor.
  - repeat constructor.
Defined.

Lemma combine_devel_last_entry_wins_witness :
  exists r h2 dr,
    combine_devel example_dumps example_to_native example_check_defined 3 [VRef 1; VRef 2; VRef 3]
      no_kwargs mixed_heap = (Return r, mixed_heap ++ h2) /\
    snapshot 4 (mixed_heap ++ h2) r = Some (DDict dr) /\
    forall k, dict_get k dr =
      last_entry k [[("a", DDict [("b", DInt 1)])]; [("a", DInt 5)];
                    [("c", DInt 2)]].
Proof.
  apply (combine_devel_last_entry_wins example_dumps example_to_native
           example_check_defined 3 3
           mixed_heap [VRef 1; VRef 2; VRef 3]).
  - lia.
  - reflexivity.
  - reflexivity.
  - reflexivity.
  - repeat constructor.
  - repeat constructor.
Defined.


Lemma merge_hash_entries_witness :
  exists r h2 dr,
    merge_hash example_dumps example_to_native 2 (VRef 2) (VRef 3)
      true "prepend" policy_heap = (Return r, policy_heap ++ h2) /\
    snapshot 2 (policy_heap ++ h2) r = Some (DDict dr) /\
    forall k, dict_get k dr =
      merged_entry true "prepend"
        [("l", DList [DInt 1; DInt 2; DInt 3])]
        [("l", DList [DInt 3; DInt 4])] k.
Proof.
  apply (merge_hash_entries example_dumps example_to_native 2 2 policy_heap
           (VRef 2) (VRef 3)); [lia|reflexivity..].
Defined.

Lemma merge_hash_precedence_witness :
  exists r h2 dr,
    merge_hash example_dumps example_to_native 2 (VRef 1) (VRef 2)
      true "append" mixed_heap = (Return r, mixed_heap ++ h2) /\
    snapshot 2 (mixed_heap ++ h2) r = Some (DDict dr) /\
    forall k,
      (dict_get k [("a", DInt 5)] = None ->
       dict_get k dr = dict_get k [("a", DDict [("b", DInt 1)])]) /\
      (dict_get k [("a", DDict [("b", DInt 1)])] = None ->
       dict_get k dr = dict_get k [("a", DInt 5)]) /\
      (forall xv yv,
         dict_get k [("a", DDict [("b", DInt 1)])] = Some xv ->
         dict_get k [("a", DInt 5)] = Some yv ->
         data_is_dict xv && data_is_dict yv = false ->
         data_is_list xv && data_is_list yv = false ->
         dict_get k dr = Some yv).
Proof.
  apply (merge_hash_precedence example_dumps example_to_native 2 2 mixed_heap
           (VRef 1) (VRef 2)); [lia|reflexivity..].
Defined.

Lemma merge_hash_key_order_witness :
  exists r h' r_items,
    merge_hash example_dumps example_to_native 2 (VRef 1) (VRef 3)
      true "keep" mixed_heap = (Return r, h') /\
    get_dict h' r = Some r_items /\
    (@eq (list (string * val)) [("a", VRef 0)] [] \/
     py_eq 2 mixed_heap (VRef 1) (VRef 3) = Some true ->
     keys r_items = keys [("c", VInt 2)]) /\
    ([("a", VRef 0)] <> [] ->
     py_eq 2 mixed_heap (VRef 1) (VRef 3) = Some false ->
     keys r_items =
       keys [("a", VRef 0)] ++ new_keys [("a", VRef 0)] [("c", VInt 2)]).
Proof.
  apply (merge_hash_key_order example_dumps example_to_native 2 2 mixed_heap
           (VRef 1) (VRef 3) [("a", DDict [("b", DInt 1)])] [("c", DInt 2)]);
    [lia|reflexivity..].
Defined.

Lemma merge_hash_default_agrees_with_loop_witness :
  exists r1 h1 r2 h2 t1 t2,
    merge_hash example_dumps example_to_native 2 (VRef 2) (VRef 3)
      false "replace" equal_lists_heap = (Return r1, h1) /\
    merge_hash_general example_dumps example_to_native 2 (VRef 2) (VRef 3)
      false "replace" equal_lists_heap = (Return r2, h2) /\
    snapshot 2 h1 r1 = Some t1 /\ snapshot 2 h2 r2 = Some t2 /\
    data_eq t1 t2 = true.
Proof.
  apply (merge_hash_default_agrees_with_loop example_dumps example_to_native
           2 2 equal_lists_heap (VRef 2) (VRef 3)
           [("l", DList [DInt 1])] [("l", DList [DInt 1])]);
    [lia|reflexivity..].
Defined.

Lemma merge_hash_empty_is_loop_witness :
  merge_hash example_dumps example_to_native 0 (VRef 2) (VRef 1)
    true "append" mismatch_heap
    = (Return (VRef 3), mismatch_heap ++ [ODict [("a", VInt 1)]]) /\
  merge_hash_general example_dumps example_to_native 0 (VRef 2) (VRef 1)
    true "append" mismatch_heap
    = (Return (VRef 3), mismatch_heap ++ [ODict [("a", VInt 1)]]).
Proof.
  apply (merge_hash_empty_is_loop example_dumps example_to_native 0
           mismatch_heap (VRef 2) (VRef 1) [("a", VInt 1)] true "append").
  - reflexivity.
  - reflexivity.
  - reflexivity.
  - repeat constructor. apply not_elem_of_nil.
Defined.

Lemma merge_hash_default_shares_values_witness :
  exists items,
    merge_hash example_dumps example_to_native 2 (VRef 1) (VRef 3)
      false "replace" mixed_heap
      = (Return (VRef 5), mixed_heap ++ [ODict items]) /\
    forall k, dict_get k items =
      match dict_get k [("c", VInt 2)] with
      | Some v => Some v
      | None => dict_get k [("a", VRef 0)]
      end.
Proof.
  apply (merge_hash_default_shares_values example_dumps example_to_native
           2 2 mixed_heap (VRef 1) (VRef 3)
           [("a", DDict [("b", DInt 1)])] [("c", DInt 2)]);
    [lia|reflexivity..].
Defined.
